(** * RouteGuard: the geofenced route-safety evaluator

    A shallow embedding of the two Express backends of the repository

      - [src/website/src/Backend/backend.js]  (haversine, nested [for] loops,
        [/api/route] and [/api/reroute]);
      - [src/website/Backend/backend.js]      (spherical law of cosines,
        [Array.prototype.some] and [/route]);

    together with the properties of the zone containment check, the route
    classifier and the alternative-route selection.

    Numbers.  A JavaScript Number is modelled by an exact real number; the one
    non-real value that the arithmetic of these files can produce from real
    operands, NaN, is modelled by [None] ([Math.sqrt] of a negative operand,
    [Math.acos] outside [-1, 1]).  Rounding to binary64 is not modelled: a
    value computed here is the value of the source's formula in exact
    arithmetic, which the doubles of the code only approximate. *)

From Stdlib Require Import Reals Lra Lia List Bool Ascii String.
Import ListNotations.

Local Open Scope R_scope.

(** ** JavaScript numbers and the [Math] object *)

Module JS.

(** A Number that may be NaN. *)
Definition Number : Type := option R.

Definition NaN : Number := None.

(** Arithmetic on a possibly-NaN operand propagates NaN. *)
Definition bind (x : Number) (k : R -> Number) : Number :=
  match x with
  | Some v => k v
  | None => None
  end.

(** [x < y]: every comparison with NaN is false. *)
Definition lt (x : Number) (y : R) : bool :=
  match x with
  | Some v => if Rlt_dec v y then true else false
  | None => false
  end.

(** [Array.prototype.some]. *)
Definition some {A : Type} (f : A -> bool) (xs : list A) : bool :=
  existsb f xs.

(** [Array.prototype.find]; [None] is [undefined]. *)
Definition find {A : Type} (f : A -> bool) (xs : list A) : option A :=
  List.find f xs.

End JS.

Notation "x <- e ;; k" := (JS.bind e (fun x => k))
  (at level 61, e at next level, right associativity).

Module Math.

Definition PI : R := Rtrigo1.PI.

Definition sin (x : R) : R := Rtrigo_def.sin x.

Definition cos (x : R) : R := Rtrigo_def.cos x.

(** [Math.sqrt]: NaN on a negative operand. *)
Definition sqrt (x : R) : JS.Number :=
  if Rle_dec 0 x then Some (R_sqrt.sqrt x) else JS.NaN.

(** [Math.acos]: NaN outside [-1, 1]. *)
Definition acos (x : R) : JS.Number :=
  if Rle_dec (-1) x
  then if Rle_dec x 1 then Some (Ratan.acos x) else JS.NaN
  else JS.NaN.

(** [Math.atan2 y x]: the angle of the point [(x, y)], in (-PI, PI]. *)
Definition atan2 (y x : R) : R :=
  if Rlt_dec 0 x then atan (y / x)
  else if Rlt_dec x 0 then
    if Rle_dec 0 y then atan (y / x) + Rtrigo1.PI
    else atan (y / x) - Rtrigo1.PI
  else if Rlt_dec 0 y then Rtrigo1.PI / 2
  else if Rlt_dec y 0 then - (Rtrigo1.PI / 2)
  else 0.

End Math.

(** ** The routing provider's GeoJSON routes *)

Module GeoJSON.

(** A position is the array [[lng, lat]]. *)
Definition Position : Type := (R * R)%type.

Record Geometry : Type := mkGeometry { coordinates : list Position }.

Record Route : Type := mkRoute { geometry : Geometry }.

Definition ofPositions (ps : list Position) : Route :=
  mkRoute (mkGeometry ps).

(** The same route traversed from its end to its start. *)
Definition reversed (route : Route) : Route :=
  ofPositions (rev (coordinates (geometry route))).

(** The provider's answer: [code] and the ranked [routes]
    ([None] when the field is absent). *)
Record Response : Type := mkResponse {
  code : string;
  routes : option (list Route)
}.

End GeoJSON.

(** ** [src/website/src/Backend/backend.js] *)

Module WebsiteSrc.

Record Zone : Type := mkZone {
  name : string;
  coordinates : R * R;      (* [lat, lon] *)
  radius : R
}.

Definition redZones : list Zone :=
  [ mkZone "Zone A (Delhi)" (286139 / 10000, 772090 / 10000) 5000;
    mkZone "Zone B (Lucknow)" (268467 / 10000, 809462 / 10000) 4000 ].

(** Earth's radius in meters, the [R] local to [haversineDistance]. *)
Definition R_earth : R := 6371000.

(** [haversineDistance]; [phi1 phi2 dphi dlam] are the source's Greek
    locals. *)
Definition haversineDistance (lat1 lon1 lat2 lon2 : R) : JS.Number :=
  let phi1 := lat1 * Math.PI / 180 in
  let phi2 := lat2 * Math.PI / 180 in
  let dphi := (lat2 - lat1) * Math.PI / 180 in
  let dlam := (lon2 - lon1) * Math.PI / 180 in
  let a := Math.sin (dphi / 2) * Math.sin (dphi / 2) +
           Math.cos phi1 * Math.cos phi2 *
           Math.sin (dlam / 2) * Math.sin (dlam / 2) in
  sa <- Math.sqrt a ;;
  sb <- Math.sqrt (1 - a) ;;
  let c := 2 * Math.atan2 sa sb in
  Some (R_earth * c).

(** The inner [for (const zone of redZones)] loop of [isRouteUnsafe] for
    one coordinate: [true] when the loop body returns. *)
Fixpoint zoneLoop (lat lng : R) (zones : list Zone) : bool :=
  match zones with
  | [] => false
  | zone :: rest =>
      let distance :=
        haversineDistance lat lng (fst (coordinates zone))
                          (snd (coordinates zone)) in
      if JS.lt distance (radius zone) then true
      else zoneLoop lat lng rest
  end.

(** The outer [for (const coord of coordinates)] loop. *)
Fixpoint coordLoop (redZones : list Zone)
         (coords : list GeoJSON.Position) : bool :=
  match coords with
  | [] => false
  | coord :: rest =>
      let '(lng, lat) := coord in
      if zoneLoop lat lng redZones then true
      else coordLoop redZones rest
  end.

(** [isRouteUnsafe], with the module constant [redZones] passed in. *)
Definition isRouteUnsafe (redZones : list Zone)
           (route : GeoJSON.Route) : bool :=
  let coordinates := GeoJSON.coordinates (GeoJSON.geometry route) in
  coordLoop redZones coordinates.

(** What a handler sends back. *)
Inductive Reply : Type :=
| Status400 (message : string)   (* res.status(400).json({status: "error", message}) *)
| Status500 (message : string)   (* res.status(500).json({status: "error", message}) *)
| Json (status : string) (route : option GeoJSON.Response).
                                 (* res.json({status, route}) *)

(** [app.get("/api/route")].  [fetched] is what the awaited [fetch] and
    [response.json()] produced, [None] when either threw.  The decoded body
    is taken to have the provider's shape: a body on which reading
    [data.code] or a route's [geometry.coordinates] throws also ends in the
    [catch], and is not a value of [GeoJSON.Response]. *)
Definition apiRoute (redZones : list Zone)
           (fetched : option GeoJSON.Response) : Reply :=
  match fetched with
  | None => Status500 "Failed to fetch route"
  | Some data =>
      if negb (String.eqb (GeoJSON.code data) "Ok") then
        Status400 "Route not found"
      else
        match GeoJSON.routes data with
        | None => Status400 "Route not found"
        | Some [] => Status400 "Route not found"
        | Some (primaryRoute :: _) =>
            if isRouteUnsafe redZones primaryRoute
            then Json "unsafe" (Some data)
            else Json "safe" (Some data)
        end
  end.

(** Line 91 of [/api/reroute]: the first route that is not unsafe. *)
Definition safeRoute (redZones : list Zone)
           (routes : list GeoJSON.Route) : option GeoJSON.Route :=
  JS.find (fun route => negb (isRouteUnsafe redZones route)) routes.

(** Lines 91-99 of [/api/reroute]: answer with the route found, in the
    shape [{ ...data, routes: [safeRoute] }], or report that none is. *)
Definition rerouteReply (redZones : list Zone) (data : GeoJSON.Response)
           (routes : list GeoJSON.Route) : Reply :=
  match safeRoute redZones routes with
  | Some safeRoute =>
      let safeRouteData :=
        GeoJSON.mkResponse (GeoJSON.code data) (Some [safeRoute]) in
      Json "safe" (Some safeRouteData)
  | None => Json "no_safe_alternatives_found" None
  end.

(** [app.get("/api/reroute")]. *)
Definition apiReroute (redZones : list Zone)
           (fetched : option GeoJSON.Response) : Reply :=
  match fetched with
  | None => Status500 "Failed to fetch reroute"
  | Some data =>
      if negb (String.eqb (GeoJSON.code data) "Ok") then
        Status400 "No routes found"
      else
        match GeoJSON.routes data with
        | None => Status400 "No routes found"
        | Some [] => Status400 "No routes found"
        | Some routes => rerouteReply redZones data routes
        end
  end.

End WebsiteSrc.

(** ** [src/website/Backend/backend.js] *)

Module Website.

Record Zone : Type := mkZone { lat : R; lon : R; radius : R }.

Definition redZones : list Zone :=
  [ mkZone (286139 / 10000) (772090 / 10000) 700;
    mkZone (268467 / 10000) (809462 / 10000) 500 ].

(** Earth's radius (m), the module constant [R]. *)
Definition R_earth : R := 6378137.

Definition toRad (deg : R) : R := deg * Math.PI / 180.

(** [distance]: the spherical law of cosines. *)
Definition distance (lat1 lon1 lat2 lon2 : R) : JS.Number :=
  let phi1 := toRad lat1 in
  let phi2 := toRad lat2 in
  let dlam := toRad (lon2 - lon1) in
  c <- Math.acos (Math.sin phi1 * Math.sin phi2 +
                  Math.cos phi1 * Math.cos phi2 * Math.cos dlam) ;;
  Some (c * R_earth).

Definition inRedZone (redZones : list Zone) (lat lon : R) : bool :=
  JS.some (fun zone =>
             JS.lt (distance lat lon (Website.lat zone) (Website.lon zone))
                   (radius zone))
          redZones.

Definition routeUnsafe (redZones : list Zone)
           (route : GeoJSON.Route) : bool :=
  JS.some (fun '(lon, lat) => inRedZone redZones lat lon)
          (GeoJSON.coordinates (GeoJSON.geometry route)).

Inductive Reply : Type :=
| Status400 (error : string)
| Status404 (error : string)
| Status500 (error : string)
| Json (route : GeoJSON.Response) (unsafe : bool) (message : string).

(** [app.get("/route")].  [coords] is the query parameter ([None] when
    absent); snapping the raw points only shapes the URL sent to the
    provider, whose answer is [fetched] ([None] when the [try] block
    threw).  The leading pictographs of the two messages are left out. *)
Definition route (redZones : list Zone) (coords : option string)
           (fetched : option GeoJSON.Response) : Reply :=
  match coords with
  | None => Status400 "Coordinates are missing"
  | Some EmptyString => Status400 "Coordinates are missing"
  | Some _ =>
      match fetched with
      | None => Status500 "Failed to process route."
      | Some data =>
          match GeoJSON.routes data with
          | None => Status404 "No route found"
          | Some [] => Status404 "No route found"
          | Some (route :: _) =>
              let unsafe := routeUnsafe redZones route in
              Json data unsafe
                   (if unsafe
                    then "This route passes through a red zone."
                    else "Safe route.")
          end
      end
  end.

End Website.

(** ** Vocabulary of the specification *)

Module Spec.

(** A GeoPoint with its degrees in range. *)
Definition validGeoPoint (lat lon : R) : Prop :=
  -90 <= lat <= 90 /\ -180 <= lon <= 180.

(** The cosine of the central angle between two points whose latitudes
    and longitude difference are given in radians: the operand of
    [Math.acos] in [Website.distance]. *)
Definition cosAngle (phi1 phi2 dlam : R) : R :=
  sin phi1 * sin phi2 + cos phi1 * cos phi2 * cos dlam.

(** [distance(point, zone.center)], haversine backend. *)
Definition distanceH (p : GeoJSON.Position) (z : WebsiteSrc.Zone)
  : JS.Number :=
  WebsiteSrc.haversineDistance (snd p) (fst p)
    (fst (WebsiteSrc.coordinates z)) (snd (WebsiteSrc.coordinates z)).

(** [distance(point, zone.center)], law-of-cosines backend. *)
Definition distanceC (p : GeoJSON.Position) (z : Website.Zone)
  : JS.Number :=
  Website.distance (snd p) (fst p) (Website.lat z) (Website.lon z).

(** [distance(point, zone.center) < zone.radius], haversine backend. *)
Definition withinH (p : GeoJSON.Position) (z : WebsiteSrc.Zone) : Prop :=
  exists d, distanceH p z = Some d /\ d < WebsiteSrc.radius z.

(** [distance(point, zone.center) < zone.radius], law-of-cosines backend. *)
Definition withinC (p : GeoJSON.Position) (z : Website.Zone) : Prop :=
  exists d, distanceC p z = Some d /\ d < Website.radius z.

(** The point is at or beyond the zone's boundary. *)
Definition notInsideH (p : GeoJSON.Position) (z : WebsiteSrc.Zone) : Prop :=
  exists d, distanceH p z = Some d /\ WebsiteSrc.radius z <= d.

Definition notInsideC (p : GeoJSON.Position) (z : Website.Zone) : Prop :=
  exists d, distanceC p z = Some d /\ Website.radius z <= d.

(** The first zone, in configuration order, that contains the point. *)
Definition firstZone (zones : list WebsiteSrc.Zone)
           (p : GeoJSON.Position) : option WebsiteSrc.Zone :=
  List.find (fun z => JS.lt (distanceH p z) (WebsiteSrc.radius z)) zones.

(** The first matching point/zone pair in traversal order. *)
Fixpoint firstViolation (zones : list WebsiteSrc.Zone)
         (ps : list GeoJSON.Position)
  : option (GeoJSON.Position * WebsiteSrc.Zone) :=
  match ps with
  | [] => None
  | p :: rest =>
      match firstZone zones p with
      | Some z => Some (p, z)
      | None => firstViolation zones rest
      end
  end.

End Spec.

(** ** The nearest-road lookup of [src/website/Backend/backend.js] *)

Module Nearest.

Record Waypoint : Type := mkWaypoint { location : GeoJSON.Position }.

(** The answer of the provider's [nearest] service. *)
Record Response : Type := mkResponse {
  code : string;
  waypoints : option (list Waypoint)
}.

(** [snapToRoad].  [fetched] is what the awaited [fetch] and [res.json()]
    produced, [None] when either threw (the [catch] branch). *)
Definition snapToRoad (fetched : option Response) (lon lat : R)
  : GeoJSON.Position :=
  match fetched with
  | None => (lon, lat)
  | Some data =>
      if String.eqb (code data) "Ok" then
        match waypoints data with
        | Some (first :: _) => location first
        | Some [] => (lon, lat)
        | None => (lon, lat)
        end
      else (lon, lat)
  end.

(** [snappedPoints] of [/route]: every raw point snapped by its own request;
    [service] gives the outcome of the request made for a point. *)
Definition snappedPoints (service : R -> R -> option Response)
           (rawPoints : list GeoJSON.Position) : list GeoJSON.Position :=
  map (fun '(lon, lat) => snapToRoad (service lon lat) lon lat) rawPoints.

End Nearest.

(** ** The map components

    [isInsideRedZone] is the one of [src/unnamed/part_000], whose
    [haversineDistance] is the same text as the backend's; [formatCoords],
    [getRoute] and [handleReroute] are those of
    [src/website/src/Frontend/MapComponent.js]. *)

Module Client.

(** A Leaflet position, the array [[lat, lng]]. *)
Definition LatLng : Type := (R * R)%type.

Definition isInsideRedZone (redZones : list WebsiteSrc.Zone)
           (lat lng : R) : bool :=
  JS.some (fun zone =>
             let distance :=
               WebsiteSrc.haversineDistance lat lng
                 (fst (WebsiteSrc.coordinates zone))
                 (snd (WebsiteSrc.coordinates zone)) in
             JS.lt distance (WebsiteSrc.radius zone))
          redZones.

(** [c => [c[1], c[0]]]. *)
Definition swap (c : R * R) : R * R := (snd c, fst c).

(** [formatCoords]; [None] is the TypeError of reading [routes[0].geometry]
    when [routeData], [routes] or [routes[0]] is undefined. *)
Definition formatCoords (routeData : option GeoJSON.Response)
  : option (list LatLng) :=
  match routeData with
  | Some data =>
      match GeoJSON.routes data with
      | Some (first :: _) =>
          Some (map swap (GeoJSON.coordinates (GeoJSON.geometry first)))
      | Some [] => None
      | None => None
      end
  | None => None
  end.

(** The fields of a reply's JSON body that the component reads. *)
Definition status (data : WebsiteSrc.Reply) : string :=
  match data with
  | WebsiteSrc.Status400 _ => "error"
  | WebsiteSrc.Status500 _ => "error"
  | WebsiteSrc.Json status _ => status
  end.

Definition route (data : WebsiteSrc.Reply) : option GeoJSON.Response :=
  match data with
  | WebsiteSrc.Json _ route => route
  | _ => None
  end.

Definition message (data : WebsiteSrc.Reply) : option string :=
  match data with
  | WebsiteSrc.Status400 message => Some message
  | WebsiteSrc.Status500 message => Some message
  | WebsiteSrc.Json _ _ => None
  end.

(** [x || fallback] for a string that may be undefined. *)
Definition orElse (x : option string) (fallback : string) : string :=
  match x with
  | Some EmptyString => fallback
  | Some s => s
  | None => fallback
  end.

(** The component state the two handlers write, and the alerts raised. *)
Record View : Type := mkView {
  safeRoute : option (list LatLng);
  unsafeRoute : option (list LatLng);
  showModal : bool;
  isLoading : bool;
  alerts : list string
}.

(** How a handler ends: normally, or by an uncaught exception, with the state
    as the preceding setter calls left it. *)
Inductive Outcome : Type :=
| Done (view : View)
| Threw (view : View).

(** [getRoute].  [fetched] is the body of the backend's reply, [None] when
    the awaited [fetch] or [res.json()] rejected. *)
Definition getRoute (view : View) (fetched : option WebsiteSrc.Reply)
  : Outcome :=
  let started := mkView None None (showModal view) true (alerts view) in
  match fetched with
  | None => Threw started
  | Some data =>
      let loaded := mkView None None (showModal view) false (alerts view) in
      if String.eqb (status data) "safe" then
        match formatCoords (route data) with
        | Some coords =>
            Done (mkView (Some coords) None (showModal view) false
                         (alerts view))
        | None => Threw loaded
        end
      else if String.eqb (status data) "unsafe" then
        match formatCoords (route data) with
        | Some coords =>
            Done (mkView None (Some coords) true false (alerts view))
        | None => Threw loaded
        end
      else
        Done (mkView None None (showModal view) false
                     (alerts view ++
                      [orElse (message data) "An error occurred."]))
  end.

(** [handleReroute]. *)
Definition handleReroute (view : View) (fetched : option WebsiteSrc.Reply)
  : Outcome :=
  let started :=
    mkView (safeRoute view) (unsafeRoute view) false true (alerts view) in
  match fetched with
  | None => Threw started
  | Some data =>
      if String.eqb (status data) "safe" then
        match formatCoords (route data) with
        | Some coords => Done (mkView (Some coords) None false false
                                      (alerts view))
        | None => Threw (mkView (safeRoute view) None false false
                                (alerts view))
        end
      else if String.eqb (status data) "no_safe_alternatives_found" then
        Done (mkView (safeRoute view) (unsafeRoute view) false false
                (alerts view ++
                 ["Could not find a safe alternative route. Please try different start or end points."%string]))
      else
        Done (mkView (safeRoute view) (unsafeRoute view) false false
                (alerts view ++
                 [orElse (message data)
                         "An error occurred while rerouting."]))
  end.

End Client.

(** ** Concrete inputs *)

Module Examples.

(** A zone on the equator whose radius is the length of one degree of arc. *)
Definition degreeZone : Website.Zone :=
  Website.mkZone 0 0 (PI / 180 * 6378137).

(** The same for the haversine backend. *)
Definition degreeZoneH : WebsiteSrc.Zone :=
  WebsiteSrc.mkZone "One degree" (0, 0) (6371000 * (PI / 180)).

(** One vertex on the equator, one degree east of the centre of
    [degreeZone]. *)
Definition boundaryRoute : GeoJSON.Route :=
  GeoJSON.ofPositions [(1, 0)].

Definition delhi : GeoJSON.Position := (772090 / 10000, 286139 / 10000).

Definition lucknow : GeoJSON.Position := (809462 / 10000, 268467 / 10000).

Definition throughDelhi : GeoJSON.Route := GeoJSON.ofPositions [delhi].

Definition throughLucknow : GeoJSON.Route := GeoJSON.ofPositions [lucknow].

(** One vertex at the centre of the one-degree zones. *)
Definition centreRoute : GeoJSON.Route := GeoJSON.ofPositions [(0, 0)].

(** The provider's answer ranking [centreRoute] before [boundaryRoute]. *)
Definition ranked : GeoJSON.Response :=
  GeoJSON.mkResponse "Ok" (Some [centreRoute; boundaryRoute]).

(** The provider's answer with one route through each configured zone. *)
Definition allClipping : GeoJSON.Response :=
  GeoJSON.mkResponse "Ok" (Some [throughDelhi; throughLucknow]).

(** A polyline without vertices. *)
Definition emptyRoute : GeoJSON.Route := GeoJSON.ofPositions [].

(** Delhi with its longitude shifted by a full turn: 437.209 degrees. *)
Definition wrappedDelhi : GeoJSON.Position :=
  (4372090 / 10000, 286139 / 10000).

Definition wrappedRoute : GeoJSON.Route := GeoJSON.ofPositions [wrappedDelhi].

(** The provider's answer with [emptyRoute] as its only route. *)
Definition emptyAnswer : GeoJSON.Response :=
  GeoJSON.mkResponse "Ok" (Some [emptyRoute]).

(** The provider's answer with [wrappedRoute] as its only route. *)
Definition wrappedAnswer : GeoJSON.Response :=
  GeoJSON.mkResponse "Ok" (Some [wrappedRoute]).

(** The provider's answer with [throughDelhi] as its only route. *)
Definition delhiAnswer : GeoJSON.Response :=
  GeoJSON.mkResponse "Ok" (Some [throughDelhi]).

End Examples.

(** ** Strings *)

Module Text.

(** [s.split(sep)] for a separator [sep] of one character. *)
Fixpoint split (sep : ascii) (s : string) : list string :=
  match s with
  | EmptyString => [EmptyString]
  | String c rest =>
      if Ascii.eqb c sep then EmptyString :: split sep rest
      else
        match split sep rest with
        | piece :: pieces => String c piece :: pieces
        | [] => [String c EmptyString]
        end
  end.

(** [xs.join(sep)]. *)
Fixpoint join (sep : string) (xs : list string) : string :=
  match xs with
  | [] => EmptyString
  | x :: rest =>
      match rest with
      | [] => x
      | _ :: _ => x ++ sep ++ join sep rest
      end
  end.

(** [s.includes(c)] for a character [c]. *)
Fixpoint occurs (c : ascii) (s : string) : bool :=
  match s with
  | EmptyString => false
  | String a rest => Ascii.eqb a c || occurs c rest
  end.

Definition comma : ascii := ","%char.

Definition semicolon : ascii := ";"%char.

End Text.

(** ** The request of [fetchRoute] and its reading by [/route]

    [fetchRoute] is the one of [src/unnamed/part_001], [part_002] and
    [part_003] (the same text up to line breaks); the points it is given are
    ["lat,lng"] strings. *)

Module Planner.

(** [p.split(",").reverse().join(",")]. *)
Definition reversePair (p : string) : string :=
  Text.join "," (rev (Text.split Text.comma p)).

(** [coordStr], once the guard on [start] and [end] has passed. *)
Definition coordStr (start end_ : string) (currentWaypoints : list string)
  : string :=
  let wpParam :=
    match currentWaypoints with
    | [] => EmptyString
    | _ :: _ => Text.join ";" (map reversePair currentWaypoints)
    end in
  let startParam := reversePair start in
  let endParam := reversePair end_ in
  let allCoords :=
    [startParam]
      ++ match wpParam with
         | EmptyString => []
         | String _ _ => [wpParam]
         end
      ++ [endParam] in
  Text.join ";" allCoords.

(** The [coords] parameter that [fetchRoute] requests; [None] when the guard
    [!start || !end] stops it ([start], [end] are [null] until chosen). *)
Definition requestedCoords (start end_ : option string)
           (currentWaypoints : list string) : option string :=
  match start, end_ with
  | Some (String a s), Some (String b e) =>
      Some (coordStr (String a s) (String b e) currentWaypoints)
  | _, _ => None
  end.

(** [coords.split(";").map(p => p.split(","))]: the raw points of [/route],
    each as its fields, before [Number] is applied to them. *)
Definition rawPointFields (coords : string) : list (list string) :=
  map (Text.split Text.comma) (Text.split Text.semicolon coords).

End Planner.

(** ** The zone polygons and the vehicle monitor of [src/unnamed/part_001]

    ([part_002] and [part_003] draw the same polygons, the latter with 64
    segments.)  Positions are [[lat, lng]]. *)

Module Overlay.

(** [Math.pow] for an exponent that is a natural number. *)
Definition pow (x : R) (n : nat) : R := x ^ n.

(** The point pushed by the loop body of [getRedZonePolygons] at index [i]. *)
Definition ringPoint (segments : nat) (zone : Website.Zone) (i : nat)
  : R * R :=
  let angle := INR i / INR segments * 2 * Math.PI in
  let dx := (Website.radius zone * Math.cos angle) /
            (111320 * Math.cos (Website.lat zone * Math.PI / 180)) in
  let dy := (Website.radius zone * Math.sin angle) / 111000 in
  (Website.lat zone + dy, Website.lon zone + dx).

(** [coords] of one zone: the loop over [i < segments], then
    [coords.push(coords[0])].  The sources fix [segments] to 32 or 64; with
    no segment there is no first point to push. *)
Definition ring (segments : nat) (zone : Website.Zone) : list (R * R) :=
  let coords := map (ringPoint segments zone) (seq 0 segments) in
  match coords with
  | first :: _ => coords ++ [first]
  | [] => coords
  end.

(** [dist] of the red-zone effect: the equirectangular distance from the
    vehicle to the centre of a zone. *)
Definition dist (vehiclePos : R * R) (zone : Website.Zone) : JS.Number :=
  s <- Math.sqrt
         (pow (fst vehiclePos - Website.lat zone) 2 +
          pow ((snd vehiclePos - Website.lon zone) *
               Math.cos (Website.lat zone * Math.PI / 180)) 2) ;;
  Some (111000 * s).

Definition inside (redZones : list Website.Zone) (vehiclePos : R * R)
  : bool :=
  JS.some (fun zone => JS.lt (dist vehiclePos zone) (Website.radius zone))
          redZones.

(** A line of the log, without its time of day. *)
Inductive LogEntry : Type :=
| EnterRedZone
| ExitRedZone.

(** The refs and the state that the red-zone effect reads and writes;
    [redZoneTimer] tells whether the ref holds a timer handle. *)
Record Monitor : Type := mkMonitor {
  logCooldown : bool;
  redZoneTimer : bool;
  logs : list LogEntry
}.

Definition initial : Monitor := mkMonitor false false [].

(** One run of the effect, for a new value of [vehiclePos] ([None] is
    [null]). *)
Definition onVehiclePos (redZones : list Website.Zone) (m : Monitor)
           (vehiclePos : option (R * R)) : Monitor :=
  match vehiclePos with
  | None => m
  | Some pos =>
      let inside := inside redZones pos in
      let entered :=
        if inside && negb (logCooldown m)
        then mkMonitor true true (logs m ++ [EnterRedZone])
        else m in
      if negb inside && redZoneTimer entered
      then mkMonitor (logCooldown entered) false
                     (logs entered ++ [ExitRedZone])
      else entered
  end.

(** The two-second timeout that clears the cooldown. *)
Definition onCooldownElapsed (m : Monitor) : Monitor :=
  mkMonitor false (redZoneTimer m) (logs m).

(** What can happen to the monitor.  The ten-second timer only raises an
    alert and leaves the monitor as it is. *)
Inductive Event : Type :=
| VehiclePos (vehiclePos : option (R * R))
| CooldownElapsed
| PoliceTimerFired.

Definition step (redZones : list Website.Zone) (m : Monitor) (e : Event)
  : Monitor :=
  match e with
  | VehiclePos vehiclePos => onVehiclePos redZones m vehiclePos
  | CooldownElapsed => onCooldownElapsed m
  | PoliceTimerFired => m
  end.

Definition run (redZones : list Website.Zone) (events : list Event)
  : Monitor :=
  fold_left (step redZones) events initial.

End Overlay.

(** ** Further concrete inputs *)

Module MoreExamples.

(** The provider's answer ranking [boundaryRoute] before [centreRoute]. *)
Definition safeFirst : GeoJSON.Response :=
  GeoJSON.mkResponse "Ok" (Some [Examples.boundaryRoute; Examples.centreRoute]).

(** A nearest service that is down: every request fails. *)
Definition serviceDown (lon lat : R) : option Nearest.Response := None.

(** Points as the click handler writes them, ["lat,lng"] to six decimals. *)
Definition startPoint : string := "28.613900,77.209000".

Definition endPoint : string := "26.846700,80.946200".

Definition viaPoint : string := "27.500000,79.000000".

(** A zone on the equator whose radius is half the equator's length. *)
Definition halfGlobeZone : Website.Zone :=
  Website.mkZone 0 0 (PI * 6378137).

(** One vertex on the equator at longitude 180, opposite the centre of
    [halfGlobeZone]. *)
Definition antipodeRoute : GeoJSON.Route :=
  GeoJSON.ofPositions [(180, 0)].

(** The vehicle reports the centre of [degreeZone], then a position two
    degrees of latitude north of it. *)
Definition driveThrough : list Overlay.Event :=
  [ Overlay.VehiclePos (Some (0, 0)); Overlay.VehiclePos (Some (2, 0)) ].

(** The state of the map component before any request. *)
Definition initialView : Client.View :=
  Client.mkView None None false false [].

End MoreExamples.

(** * Properties *)

(** ** The central angle *)

Section CentralAngle.

Import Spec.

Lemma cosAngle_bounds (phi1 phi2 dlam : R) :
  -1 <= cosAngle phi1 phi2 dlam <= 1.
Proof.
  unfold cosAngle.
  pose proof (COS_bound (phi1 - phi2)) as Hm.
  pose proof (COS_bound (phi1 + phi2)) as Hp.
  pose proof (COS_bound dlam) as Hk.
  rewrite cos_minus in Hm. rewrite cos_plus in Hp.
  set (s := sin phi1 * sin phi2) in *.
  set (c := cos phi1 * cos phi2) in *.
  set (k := cos dlam) in *.
  split; nra.
Qed.

(** The haversine operand [a] is half of one minus that cosine. *)
Lemma haversine_operand (phi1 phi2 dphi dlam : R) :
  dphi = phi2 - phi1 ->
  sin (dphi / 2) * sin (dphi / 2) +
  cos phi1 * cos phi2 * sin (dlam / 2) * sin (dlam / 2)
  = (1 - cosAngle phi1 phi2 dlam) / 2.
Proof.
  intros ->. unfold cosAngle.
  pose proof (cos_2a_sin ((phi2 - phi1) / 2)) as H1.
  pose proof (cos_2a_sin (dlam / 2)) as H2.
  replace (2 * ((phi2 - phi1) / 2)) with (phi2 - phi1) in H1 by field.
  replace (2 * (dlam / 2)) with dlam in H2 by field.
  rewrite cos_minus in H1.
  rewrite H2. nra.
Qed.

Lemma atan_nonneg (t : R) : 0 <= t -> 0 <= atan t.
Proof.
  intros [Ht | <-].
  - left. rewrite <- atan_0. now apply atan_increasing.
  - rewrite atan_0. lra.
Qed.

(** [2 * atan2(sqrt a, sqrt (1 - a))] is the angle whose cosine is
    [1 - 2 a]. *)
Lemma atan2_sqrt_acos (a : R) :
  0 <= a <= 1 ->
  2 * Math.atan2 (sqrt a) (sqrt (1 - a)) = acos (1 - 2 * a).
Proof.
  intros [Ha0 Ha1]. unfold Math.atan2.
  destruct (Rlt_dec 0 (sqrt (1 - a))) as [Hpos | Hnpos].
  - assert (Ha : a < 1).
    { destruct (Rlt_dec a 1) as [|Hn]; [assumption|].
      replace a with 1 in Hpos by lra.
      replace (1 - 1) with 0 in Hpos by ring.
      rewrite sqrt_0 in Hpos. lra. }
    set (t := sqrt a / sqrt (1 - a)).
    assert (Ht : 0 <= t).
    { unfold t. apply Rmult_le_pos; [apply sqrt_pos|].
      left. now apply Rinv_0_lt_compat. }
    assert (Ht2 : t * t = a / (1 - a)).
    { unfold t.
      replace (sqrt a / sqrt (1 - a) * (sqrt a / sqrt (1 - a)))
        with ((sqrt a * sqrt a) / (sqrt (1 - a) * sqrt (1 - a)))
        by (field; lra).
      rewrite !sqrt_sqrt by lra. reflexivity. }
    assert (Hc : cos (2 * atan t) = 1 - 2 * a).
    { rewrite cos_2a_cos, cos_atan.
      assert (Hs : 0 < sqrt (1 + t²)).
      { apply sqrt_lt_R0. unfold Rsqr. nra. }
      replace (2 * (1 / sqrt (1 + t²)) * (1 / sqrt (1 + t²)) - 1)
        with (2 / (sqrt (1 + t²) * sqrt (1 + t²)) - 1) by (field; lra).
      rewrite sqrt_sqrt by (unfold Rsqr; nra).
      unfold Rsqr. rewrite Ht2. field. lra. }
    rewrite <- Hc. symmetry. apply acos_cos.
    pose proof (atan_bound t) as [_ Hub].
    pose proof (atan_nonneg t Ht). lra.
  - assert (Hz : sqrt (1 - a) = 0).
    { pose proof (sqrt_pos (1 - a)). lra. }
    assert (Ha : a = 1).
    { apply sqrt_eq_0 in Hz; lra. }
    subst a. rewrite sqrt_1.
    destruct (Rlt_dec (sqrt (1 - 1)) 0) as [Hneg | _]; [lra|].
    destruct (Rlt_dec 0 1) as [_ | Hn]; [|lra].
    replace (1 - 2 * 1) with (Ropp 1) by ring.
    rewrite acos_opp, acos_1. field.
Qed.

(** [haversineDistance] never yields NaN: it is the haversine radius times
    the central angle. *)
Lemma haversineDistance_value (lat1 lon1 lat2 lon2 : R) :
  WebsiteSrc.haversineDistance lat1 lon1 lat2 lon2
  = Some (6371000 *
          acos (cosAngle (lat1 * PI / 180) (lat2 * PI / 180)
                         ((lon2 - lon1) * PI / 180))).
Proof.
  unfold WebsiteSrc.haversineDistance, WebsiteSrc.R_earth,
    Math.sin, Math.cos, Math.PI.
  rewrite (haversine_operand (lat1 * PI / 180) (lat2 * PI / 180))
    by field.
  set (x := cosAngle _ _ _).
  pose proof (cosAngle_bounds (lat1 * PI / 180) (lat2 * PI / 180)
                ((lon2 - lon1) * PI / 180)) as Hx.
  fold x in Hx.
  unfold Math.sqrt.
  destruct (Rle_dec 0 ((1 - x) / 2)) as [_ | Hn]; [|lra].
  cbn [JS.bind].
  destruct (Rle_dec 0 (1 - (1 - x) / 2)) as [_ | Hn]; [|lra].
  cbn [JS.bind].
  rewrite atan2_sqrt_acos by lra.
  do 2 f_equal. f_equal. field.
Qed.

(** [distance] never yields NaN: it is the central angle times the
    equatorial radius. *)
Lemma distance_value (lat1 lon1 lat2 lon2 : R) :
  Website.distance lat1 lon1 lat2 lon2
  = Some (acos (cosAngle (lat1 * PI / 180) (lat2 * PI / 180)
                         ((lon2 - lon1) * PI / 180)) * 6378137).
Proof.
  unfold Website.distance, Website.toRad, Website.R_earth,
    Math.sin, Math.cos, Math.PI, Math.acos.
  fold (cosAngle (lat1 * PI / 180) (lat2 * PI / 180)
          ((lon2 - lon1) * PI / 180)).
  set (x := cosAngle _ _ _).
  pose proof (cosAngle_bounds (lat1 * PI / 180) (lat2 * PI / 180)
                ((lon2 - lon1) * PI / 180)) as Hx.
  fold x in Hx.
  destruct (Rle_dec (-1) x) as [_ | Hn]; [|lra].
  destruct (Rle_dec x 1) as [_ | Hn]; [|lra].
  reflexivity.
Qed.

End CentralAngle.

(** ** The comparison and the two scans *)

Lemma lt_true_iff (x : JS.Number) (y : R) :
  JS.lt x y = true <-> exists d, x = Some d /\ d < y.
Proof.
  unfold JS.lt. destruct x as [v|].
  - destruct (Rlt_dec v y) as [Hlt | Hge]; split.
    + intros _. now exists v.
    + reflexivity.
    + discriminate.
    + intros [d [[= ->] Hd]]. contradiction.
  - split; [discriminate | intros [d [[=] _]]].
Qed.

Lemma lt_irrefl (y : R) : JS.lt (Some y) y = false.
Proof.
  unfold JS.lt. destruct (Rlt_dec y y) as [H|_]; [lra | reflexivity].
Qed.

Lemma lt_false_of_le (d y : R) : y <= d -> JS.lt (Some d) y = false.
Proof.
  intros H. unfold JS.lt. destruct (Rlt_dec d y); [lra | reflexivity].
Qed.

Module HaversineScan.

Import WebsiteSrc.

(** The inner loop is a [some] over the zones. *)
Lemma zoneLoop_some (lat lng : R) (zones : list Zone) :
  zoneLoop lat lng zones
  = JS.some (fun zone =>
               JS.lt (haversineDistance lat lng (fst (coordinates zone))
                        (snd (coordinates zone)))
                     (radius zone)) zones.
Proof.
  induction zones as [|z zs IH]; cbn; [reflexivity|].
  rewrite IH. now destruct (JS.lt _ _).
Qed.

(** The outer loop is a [some] over the positions. *)
Lemma coordLoop_some (zones : list Zone) (cs : list GeoJSON.Position) :
  coordLoop zones cs
  = JS.some (fun c => zoneLoop (snd c) (fst c) zones) cs.
Proof.
  induction cs as [|[lng lat] cs IH]; cbn; [reflexivity|].
  rewrite IH. now destruct (zoneLoop lat lng zones).
Qed.

Lemma zoneLoop_true (p : GeoJSON.Position) (zones : list Zone) :
  zoneLoop (snd p) (fst p) zones = true
  <-> exists z, In z zones /\ Spec.withinH p z.
Proof.
  rewrite zoneLoop_some. unfold JS.some. rewrite existsb_exists.
  split; intros [z [Hz H]]; exists z; split; trivial;
    now apply lt_true_iff.
Qed.

Lemma coordLoop_true (zones : list Zone) (cs : list GeoJSON.Position) :
  coordLoop zones cs = true
  <-> exists p z, In p cs /\ In z zones /\ Spec.withinH p z.
Proof.
  rewrite coordLoop_some. unfold JS.some. rewrite existsb_exists. split.
  - intros [p [Hp H]]. apply zoneLoop_true in H as [z [Hz Hw]].
    now exists p, z.
  - intros [p [z [Hp [Hz Hw]]]]. exists p. split; [assumption|].
    apply zoneLoop_true. now exists z.
Qed.

Lemma coordLoop_app (zones : list Zone) (cs ds : list GeoJSON.Position) :
  coordLoop zones (cs ++ ds) = coordLoop zones cs || coordLoop zones ds.
Proof.
  rewrite !coordLoop_some. unfold JS.some. apply existsb_app.
Qed.

Lemma coordLoop_rev (zones : list Zone) (cs : list GeoJSON.Position) :
  coordLoop zones (rev cs) = coordLoop zones cs.
Proof.
  induction cs as [|c cs IH]; [reflexivity|].
  cbn [rev]. rewrite coordLoop_app, IH.
  change (c :: cs) with ([c] ++ cs). rewrite coordLoop_app.
  apply orb_comm.
Qed.

End HaversineScan.

Module CosineScan.

Import Website.

Lemma inRedZone_true (zones : list Zone) (p : GeoJSON.Position) :
  inRedZone zones (snd p) (fst p) = true
  <-> exists z, In z zones /\ Spec.withinC p z.
Proof.
  unfold inRedZone, JS.some. rewrite existsb_exists.
  split; intros [z [Hz H]]; exists z; split; trivial;
    now apply lt_true_iff.
Qed.

Lemma routeUnsafe_some (zones : list Zone) (route : GeoJSON.Route) :
  routeUnsafe zones route
  = existsb (fun c => inRedZone zones (snd c) (fst c))
            (GeoJSON.coordinates (GeoJSON.geometry route)).
Proof.
  unfold routeUnsafe, JS.some.
  induction (GeoJSON.coordinates (GeoJSON.geometry route))
    as [|[lon lat] cs IH]; cbn; [reflexivity | now rewrite IH].
Qed.

Lemma routeUnsafe_true (zones : list Zone) (route : GeoJSON.Route) :
  routeUnsafe zones route = true
  <-> exists p z,
        In p (GeoJSON.coordinates (GeoJSON.geometry route)) /\
        In z zones /\ Spec.withinC p z.
Proof.
  rewrite routeUnsafe_some, existsb_exists. split.
  - intros [p [Hp H]]. apply inRedZone_true in H as [z [Hz Hw]].
    now exists p, z.
  - intros [p [z [Hp [Hz Hw]]]]. exists p. split; [assumption|].
    apply inRedZone_true. now exists z.
Qed.

End CosineScan.

(** A boolean is [false] exactly when it is not [true]. *)
Lemma false_iff_not_true (b : bool) (P : Prop) :
  (b = true <-> P) -> (b = false <-> ~ P).
Proof.
  intros [H1 H2]. destruct b; split.
  - discriminate.
  - intros Hn. exfalso. apply Hn. now apply H1.
  - intros _ HP. apply H2 in HP. discriminate.
  - reflexivity.
Qed.

(** ** The route safety classifier *)

(** Both classifiers answer [true] exactly when a vertex lies inside a
    zone. *)
Lemma classifier_unsafe_iff (zonesH : list WebsiteSrc.Zone)
      (zonesC : list Website.Zone) (route : GeoJSON.Route) :
  (WebsiteSrc.isRouteUnsafe zonesH route = true
   <-> exists p z, In p (GeoJSON.coordinates (GeoJSON.geometry route)) /\
                   In z zonesH /\ Spec.withinH p z) /\
  (Website.routeUnsafe zonesC route = true
   <-> exists p z, In p (GeoJSON.coordinates (GeoJSON.geometry route)) /\
                   In z zonesC /\ Spec.withinC p z).
Proof.
  split.
  - apply HaversineScan.coordLoop_true.
  - apply CosineScan.routeUnsafe_true.
Qed.

(** C1.  For every route polyline and zone set the classifier answers UNSAFE
    exactly when some vertex of the polyline lies at a distance from some
    zone's centre that is less than that zone's radius, and SAFE exactly when
    no vertex does; this holds for the nested loops of [isRouteUnsafe] and for
    [routeUnsafe]. *)
Theorem classifier_safe_iff_no_vertex_in_zone :
  forall (zonesH : list WebsiteSrc.Zone) (zonesC : list Website.Zone)
         (route : GeoJSON.Route),
    let vertices := GeoJSON.coordinates (GeoJSON.geometry route) in
    (WebsiteSrc.isRouteUnsafe zonesH route = true
     <-> exists p z, In p vertices /\ In z zonesH /\ Spec.withinH p z) /\
    (WebsiteSrc.isRouteUnsafe zonesH route = false
     <-> forall p z, In p vertices -> In z zonesH -> ~ Spec.withinH p z) /\
    (Website.routeUnsafe zonesC route = true
     <-> exists p z, In p vertices /\ In z zonesC /\ Spec.withinC p z) /\
    (Website.routeUnsafe zonesC route = false
     <-> forall p z, In p vertices -> In z zonesC -> ~ Spec.withinC p z).
Proof.
  intros zonesH zonesC route vertices.
  destruct (classifier_unsafe_iff zonesH zonesC route) as [HH HC].
  fold vertices in HH, HC.
  repeat split; try (apply HH); try (apply HC).
  - intros Hf p z Hp Hz Hw.
    apply (false_iff_not_true _ _ HH) in Hf. apply Hf. now exists p, z.
  - intros Hall. apply (false_iff_not_true _ _ HH).
    intros [p [z [Hp [Hz Hw]]]]. now apply (Hall p z).
  - intros Hf p z Hp Hz Hw.
    apply (false_iff_not_true _ _ HC) in Hf. apply Hf. now exists p, z.
  - intros Hall. apply (false_iff_not_true _ _ HC).
    intros [p [z [Hp [Hz Hw]]]]. now apply (Hall p z).
Qed.

Lemma bool_eq_of_iff (b c : bool) : (b = true <-> c = true) -> b = c.
Proof.
  intros [H1 H2]. destruct b, c; trivial.
  - symmetry. now apply H1.
  - now apply H2.
Qed.

(** ** Distances at concrete points *)

Lemma cosAngle_same (phi : R) : Spec.cosAngle phi phi 0 = 1.
Proof.
  unfold Spec.cosAngle. rewrite cos_0.
  pose proof (sin2_cos2 phi) as H. unfold Rsqr in H. lra.
Qed.

Lemma haversineDistance_same (lat lon : R) :
  WebsiteSrc.haversineDistance lat lon lat lon = Some 0.
Proof.
  rewrite haversineDistance_value.
  replace ((lon - lon) * PI / 180) with 0 by field.
  rewrite cosAngle_same, acos_1. f_equal. ring.
Qed.

Lemma distance_same (lat lon : R) :
  Website.distance lat lon lat lon = Some 0.
Proof.
  rewrite distance_value.
  replace ((lon - lon) * PI / 180) with 0 by field.
  rewrite cosAngle_same, acos_1. f_equal. ring.
Qed.

Lemma cosAngle_equator (dlam : R) : Spec.cosAngle 0 0 dlam = cos dlam.
Proof. unfold Spec.cosAngle. rewrite sin_0, cos_0. ring. Qed.

Lemma one_degree_in_range : 0 <= PI / 180 <= PI.
Proof. pose proof PI_RGT_0. lra. Qed.

(** One degree of longitude along the equator, law of cosines. *)
Lemma distance_one_degree :
  Website.distance 0 1 0 0 = Some (PI / 180 * 6378137).
Proof.
  rewrite distance_value.
  replace (0 * PI / 180) with 0 by field.
  rewrite cosAngle_equator.
  replace ((0 - 1) * PI / 180) with (- (PI / 180)) by field.
  rewrite cos_neg, acos_cos by apply one_degree_in_range.
  reflexivity.
Qed.

(** One degree of longitude along the equator, haversine. *)
Lemma haversineDistance_one_degree :
  WebsiteSrc.haversineDistance 0 1 0 0 = Some (6371000 * (PI / 180)).
Proof.
  rewrite haversineDistance_value.
  replace (0 * PI / 180) with 0 by field.
  rewrite cosAngle_equator.
  replace ((0 - 1) * PI / 180) with (- (PI / 180)) by field.
  rewrite cos_neg, acos_cos by apply one_degree_in_range.
  reflexivity.
Qed.

(** ** The zone containment check *)

(** C2.  The containment check of a point against a zone is true exactly when
    the distance from the point to the zone's centre is strictly less than the
    zone's radius; a point at a distance equal to the radius is not contained;
    and a route all of whose vertices are at or beyond the boundary of every
    zone (in particular exactly on it) is classified SAFE.  Stated for the
    test inside [inRedZone]/[routeUnsafe] and for the one inside
    [isRouteUnsafe]. *)
Theorem containment_is_strict :
  forall (lat lon : R) (zC : Website.Zone) (zH : WebsiteSrc.Zone)
         (zonesC : list Website.Zone) (zonesH : list WebsiteSrc.Zone)
         (route : GeoJSON.Route),
    let vertices := GeoJSON.coordinates (GeoJSON.geometry route) in
    (Website.inRedZone [zC] lat lon = true <-> Spec.withinC (lon, lat) zC) /\
    (Spec.distanceC (lon, lat) zC = Some (Website.radius zC) ->
     Website.inRedZone [zC] lat lon = false) /\
    ((forall p z, In p vertices -> In z zonesC -> Spec.notInsideC p z) ->
     Website.routeUnsafe zonesC route = false) /\
    (WebsiteSrc.zoneLoop lat lon [zH] = true <-> Spec.withinH (lon, lat) zH) /\
    (Spec.distanceH (lon, lat) zH = Some (WebsiteSrc.radius zH) ->
     WebsiteSrc.zoneLoop lat lon [zH] = false) /\
    ((forall p z, In p vertices -> In z zonesH -> Spec.notInsideH p z) ->
     WebsiteSrc.isRouteUnsafe zonesH route = false).
Proof.
  intros lat lon zC zH zonesC zonesH route vertices.
  destruct (classifier_unsafe_iff zonesH zonesC route) as [HH HC].
  fold vertices in HH, HC.
  repeat split.
  - intros H. apply (CosineScan.inRedZone_true [zC] (lon, lat)) in H.
    destruct H as [z [[<- | []] Hw]]. exact Hw.
  - intros Hw. apply (CosineScan.inRedZone_true [zC] (lon, lat)).
    exists zC. split; [now left | exact Hw].
  - unfold Spec.distanceC. cbn [fst snd Website.inRedZone JS.some existsb].
    intros ->. now rewrite lt_irrefl.
  - intros Hall. apply (false_iff_not_true _ _ HC).
    intros [p [z [Hp [Hz [d [Hd Hlt]]]]]].
    destruct (Hall p z Hp Hz) as [d' [Hd' Hle]].
    rewrite Hd in Hd'. injection Hd' as <-. lra.
  - intros H. apply (HaversineScan.zoneLoop_true (lon, lat) [zH]) in H.
    destruct H as [z [[<- | []] Hw]]. exact Hw.
  - intros Hw. apply (HaversineScan.zoneLoop_true (lon, lat) [zH]).
    exists zH. split; [now left | exact Hw].
  - unfold Spec.distanceH. cbn [fst snd WebsiteSrc.zoneLoop].
    intros ->. now rewrite lt_irrefl.
  - intros Hall. apply (false_iff_not_true _ _ HH).
    intros [p [z [Hp [Hz [d [Hd Hlt]]]]]].
    destruct (Hall p z Hp Hz) as [d' [Hd' Hle]].
    rewrite Hd in Hd'. injection Hd' as <-. lra.
Qed.

(** Half of the equator, law of cosines. *)
Lemma distance_half_equator :
  Website.distance 0 180 0 0 = Some (PI * 6378137).
Proof.
  rewrite distance_value.
  replace (0 * PI / 180) with 0 by field.
  rewrite cosAngle_equator.
  replace ((0 - 180) * PI / 180) with (- PI) by field.
  rewrite cos_neg, cos_PI.
  replace (-1) with (Ropp 1) by ring.
  rewrite acos_opp, acos_1. f_equal. ring.
Qed.

Lemma boundary_distanceC :
  Spec.distanceC (180, 0) MoreExamples.halfGlobeZone
  = Some (Website.radius MoreExamples.halfGlobeZone).
Proof. exact distance_half_equator. Qed.

Lemma boundary_distanceH :
  Spec.distanceH (1, 0) Examples.degreeZoneH
  = Some (WebsiteSrc.radius Examples.degreeZoneH).
Proof. exact haversineDistance_one_degree. Qed.

(** The vertex of [antipodeRoute] lies exactly on the boundary of
    [halfGlobeZone], and the vertex of [boundaryRoute] exactly on the
    boundary of [degreeZoneH]: neither is contained and both routes are
    SAFE. *)
Lemma containment_is_strict_witness :
  (Spec.distanceC (180, 0) MoreExamples.halfGlobeZone
   = Some (Website.radius MoreExamples.halfGlobeZone) /\
   Website.inRedZone [MoreExamples.halfGlobeZone] 0 180 = false /\
   Website.routeUnsafe [MoreExamples.halfGlobeZone]
     MoreExamples.antipodeRoute = false)
  /\
  (Spec.distanceH (1, 0) Examples.degreeZoneH
   = Some (WebsiteSrc.radius Examples.degreeZoneH) /\
   WebsiteSrc.zoneLoop 0 1 [Examples.degreeZoneH] = false /\
   WebsiteSrc.isRouteUnsafe [Examples.degreeZoneH] Examples.boundaryRoute
   = false).
Proof.
  destruct (containment_is_strict 0 180 MoreExamples.halfGlobeZone
              Examples.degreeZoneH [MoreExamples.halfGlobeZone] []
              MoreExamples.antipodeRoute)
    as (_ & HbC & HrC & _).
  destruct (containment_is_strict 0 1 Examples.degreeZone
              Examples.degreeZoneH [] [Examples.degreeZoneH]
              Examples.boundaryRoute)
    as (_ & _ & _ & _ & HbH & HrH).
  split; (split; [| split]).
  - exact boundary_distanceC.
  - apply HbC. exact boundary_distanceC.
  - apply HrC. intros p z [<- | []] [<- | []].
    exists (Website.radius MoreExamples.halfGlobeZone).
    split; [exact boundary_distanceC | apply Rle_refl].
  - exact boundary_distanceH.
  - apply HbH. exact boundary_distanceH.
  - apply HrH. intros p z [<- | []] [<- | []].
    exists (WebsiteSrc.radius Examples.degreeZoneH).
    split; [exact boundary_distanceH | apply Rle_refl].
Defined.

(** ** Traversal direction and the zone set *)

(** C6.  Classifying a polyline traversed in the opposite direction gives the
    same verdict as classifying the polyline itself, for both classifiers. *)
Theorem classifier_reversal_invariant :
  forall (zonesH : list WebsiteSrc.Zone) (zonesC : list Website.Zone)
         (route : GeoJSON.Route),
    WebsiteSrc.isRouteUnsafe zonesH (GeoJSON.reversed route)
    = WebsiteSrc.isRouteUnsafe zonesH route /\
    Website.routeUnsafe zonesC (GeoJSON.reversed route)
    = Website.routeUnsafe zonesC route.
Proof.
  intros zonesH zonesC route. split.
  - unfold WebsiteSrc.isRouteUnsafe, GeoJSON.reversed. cbn.
    apply HaversineScan.coordLoop_rev.
  - apply bool_eq_of_iff.
    rewrite !CosineScan.routeUnsafe_true.
    unfold GeoJSON.reversed. cbn.
    split; intros [p [z [Hp H]]]; exists p, z; split; trivial.
    + now apply in_rev.
    + now apply in_rev in Hp.
Qed.

(** C10.  The classifier is antitone in the zone set: when every zone of [Z]
    is a zone of [Z'] and a route is SAFE against [Z'], it is SAFE against
    [Z]; equally, a route UNSAFE against [Z] stays UNSAFE against [Z'].
    Both classifiers. *)
Theorem classifier_antitone_in_zones :
  forall (ZH ZH' : list WebsiteSrc.Zone) (ZC ZC' : list Website.Zone)
         (route : GeoJSON.Route),
    (incl ZH ZH' ->
     (WebsiteSrc.isRouteUnsafe ZH' route = false ->
      WebsiteSrc.isRouteUnsafe ZH route = false) /\
     (WebsiteSrc.isRouteUnsafe ZH route = true ->
      WebsiteSrc.isRouteUnsafe ZH' route = true)) /\
    (incl ZC ZC' ->
     (Website.routeUnsafe ZC' route = false ->
      Website.routeUnsafe ZC route = false) /\
     (Website.routeUnsafe ZC route = true ->
      Website.routeUnsafe ZC' route = true)).
Proof.
  intros ZH ZH' ZC ZC' route.
  destruct (classifier_unsafe_iff ZH ZC route) as [HH HC].
  destruct (classifier_unsafe_iff ZH' ZC' route) as [HH' HC'].
  split; intros Hincl.
  - assert (Hup : WebsiteSrc.isRouteUnsafe ZH route = true ->
                  WebsiteSrc.isRouteUnsafe ZH' route = true).
    { intros H. apply HH in H as [p [z [Hp [Hz Hw]]]].
      apply HH'. exists p, z. auto. }
    split; [|exact Hup].
    intros Hsafe.
    destruct (WebsiteSrc.isRouteUnsafe ZH route); [|reflexivity].
    rewrite Hup in Hsafe by reflexivity. discriminate.
  - assert (Hup : Website.routeUnsafe ZC route = true ->
                  Website.routeUnsafe ZC' route = true).
    { intros H. apply HC in H as [p [z [Hp [Hz Hw]]]].
      apply HC'. exists p, z. auto. }
    split; [|exact Hup].
    intros Hsafe.
    destruct (Website.routeUnsafe ZC route); [|reflexivity].
    rewrite Hup in Hsafe by reflexivity. discriminate.
Qed.

Lemma lt_true_of_lt (d y : R) : d < y -> JS.lt (Some d) y = true.
Proof.
  intros H. unfold JS.lt. destruct (Rlt_dec d y); [reflexivity | lra].
Qed.

(** A route with a vertex at the centre of a zone of positive radius is
    UNSAFE. *)
Lemma unsafe_at_centreH (zones : list WebsiteSrc.Zone) (z : WebsiteSrc.Zone)
      (route : GeoJSON.Route) :
  In z zones -> 0 < WebsiteSrc.radius z ->
  In (snd (WebsiteSrc.coordinates z), fst (WebsiteSrc.coordinates z))
     (GeoJSON.coordinates (GeoJSON.geometry route)) ->
  WebsiteSrc.isRouteUnsafe zones route = true.
Proof.
  intros Hz Hr Hp.
  apply (proj1 (classifier_unsafe_iff zones [] route)).
  eexists; exists z. split; [exact Hp|]. split; [exact Hz|].
  exists 0. split; [|exact Hr].
  unfold Spec.distanceH. cbn [fst snd]. apply haversineDistance_same.
Qed.

Lemma unsafe_at_centreC (zones : list Website.Zone) (z : Website.Zone)
      (route : GeoJSON.Route) :
  In z zones -> 0 < Website.radius z ->
  In (Website.lon z, Website.lat z)
     (GeoJSON.coordinates (GeoJSON.geometry route)) ->
  Website.routeUnsafe zones route = true.
Proof.
  intros Hz Hr Hp.
  apply (proj2 (classifier_unsafe_iff [] zones route)).
  eexists; exists z. split; [exact Hp|]. split; [exact Hz|].
  exists 0. split; [|exact Hr].
  unfold Spec.distanceC. cbn [fst snd]. apply distance_same.
Qed.

Lemma degree_radius_pos : 0 < 6371000 * (PI / 180).
Proof. pose proof PI_RGT_0. lra. Qed.

Lemma centreRoute_unsafe :
  WebsiteSrc.isRouteUnsafe [Examples.degreeZoneH] Examples.centreRoute = true.
Proof.
  apply (unsafe_at_centreH _ Examples.degreeZoneH).
  - now left.
  - exact degree_radius_pos.
  - now left.
Qed.

Lemma boundaryRoute_safe :
  WebsiteSrc.isRouteUnsafe [Examples.degreeZoneH] Examples.boundaryRoute
  = false.
Proof.
  unfold WebsiteSrc.isRouteUnsafe. cbn.
  rewrite haversineDistance_one_degree. now rewrite lt_irrefl.
Qed.

Lemma throughDelhi_unsafe :
  WebsiteSrc.isRouteUnsafe WebsiteSrc.redZones Examples.throughDelhi = true.
Proof.
  eapply unsafe_at_centreH with (z := nth 0 WebsiteSrc.redZones Examples.degreeZoneH).
  - cbn. left. reflexivity.
  - cbn. lra.
  - cbn. left. reflexivity.
Qed.

Lemma throughLucknow_unsafe :
  WebsiteSrc.isRouteUnsafe WebsiteSrc.redZones Examples.throughLucknow = true.
Proof.
  eapply unsafe_at_centreH with (z := nth 1 WebsiteSrc.redZones Examples.degreeZoneH).
  - cbn. right. left. reflexivity.
  - cbn. lra.
  - cbn. left. reflexivity.
Qed.

(** The witness of C10: a SAFE verdict survives the removal of the zone, an
    UNSAFE verdict survives the addition of one. *)
Lemma classifier_antitone_in_zones_witness :
  WebsiteSrc.isRouteUnsafe [] Examples.boundaryRoute = false /\
  WebsiteSrc.isRouteUnsafe
    (Examples.degreeZoneH :: WebsiteSrc.redZones) Examples.throughDelhi
  = true.
Proof.
  split.
  - apply (proj1 (classifier_antitone_in_zones
                    [] [Examples.degreeZoneH] [] [] Examples.boundaryRoute)).
    + intros z [].
    + exact boundaryRoute_safe.
  - apply (proj1 (classifier_antitone_in_zones
                    WebsiteSrc.redZones
                    (Examples.degreeZoneH :: WebsiteSrc.redZones)
                    [] [] Examples.throughDelhi)).
    + intros z Hz. now right.
    + exact throughDelhi_unsafe.
Defined.

(** ** The alternative route selector *)

Section FindFirst.

Context {A : Type} (f : A -> bool).

Lemma find_first (pre : list A) (r : A) (post : list A) :
  (forall q, In q pre -> f q = false) -> f r = true ->
  List.find f (pre ++ r :: post) = Some r.
Proof.
  induction pre as [|q pre IH]; intros Hpre Hr; cbn.
  - now rewrite Hr.
  - rewrite (Hpre q) by now left.
    apply IH; [|exact Hr]. intros q' Hq'. apply Hpre. now right.
Qed.

Lemma find_some_split (l : list A) (r : A) :
  List.find f l = Some r ->
  exists pre post,
    l = pre ++ r :: post /\ f r = true /\ forall q, In q pre -> f q = false.
Proof.
  induction l as [|x l IH]; cbn; [discriminate|].
  destruct (f x) eqn:Hx.
  - intros [= ->]. exists [], l. repeat split; trivial. intros q [].
  - intros H. destruct (IH H) as (pre & post & -> & Hr & Hpre).
    exists (x :: pre), post. repeat split; trivial.
    intros q [<- | Hq]; [exact Hx | now apply Hpre].
Qed.

Lemma find_none_all (l : list A) :
  (forall q, In q l -> f q = false) -> List.find f l = None.
Proof.
  induction l as [|x l IH]; intros H; cbn; [reflexivity|].
  rewrite (H x) by now left. apply IH. intros q Hq. apply H. now right.
Qed.

End FindFirst.

(** C3.  The selection of [/api/reroute] returns the first candidate, in the
    provider's order, that the classifier does not mark unsafe: whatever it
    returns is SAFE and is preceded only by UNSAFE candidates, and whenever
    the ranked candidates are some UNSAFE routes [pre] followed by a SAFE
    route [r], it is [r] that is found and sent back (alone, in the shape of
    the provider's answer), however many candidates follow. *)
Theorem selector_returns_first_safe :
  forall (zones : list WebsiteSrc.Zone) (data : GeoJSON.Response)
         (routes : list GeoJSON.Route),
    (forall r, WebsiteSrc.safeRoute zones routes = Some r ->
       exists pre post,
         routes = pre ++ r :: post /\
         WebsiteSrc.isRouteUnsafe zones r = false /\
         (forall q, In q pre -> WebsiteSrc.isRouteUnsafe zones q = true)) /\
    (forall pre r post,
       routes = pre ++ r :: post ->
       (forall q, In q pre -> WebsiteSrc.isRouteUnsafe zones q = true) ->
       WebsiteSrc.isRouteUnsafe zones r = false ->
       WebsiteSrc.safeRoute zones routes = Some r /\
       WebsiteSrc.rerouteReply zones data routes
       = WebsiteSrc.Json "safe"
           (Some (GeoJSON.mkResponse (GeoJSON.code data) (Some [r]))) /\
       (GeoJSON.code data = "Ok"%string ->
        GeoJSON.routes data = Some routes ->
        WebsiteSrc.apiReroute zones (Some data)
        = WebsiteSrc.Json "safe"
            (Some (GeoJSON.mkResponse "Ok" (Some [r]))))).
Proof.
  intros zones data routes. split.
  - intros r H. unfold WebsiteSrc.safeRoute, JS.find in H.
    apply find_some_split in H as (pre & post & -> & Hr & Hpre).
    exists pre, post. repeat split.
    + now apply negb_true_iff in Hr.
    + intros q Hq. apply Hpre in Hq. now apply negb_false_iff in Hq.
  - intros pre r post -> Hpre Hr.
    assert (Hfind : WebsiteSrc.safeRoute zones (pre ++ r :: post) = Some r).
    { unfold WebsiteSrc.safeRoute, JS.find. apply find_first.
      - intros q Hq. now rewrite (Hpre q Hq).
      - now rewrite Hr. }
    assert (Hreply :
              WebsiteSrc.rerouteReply zones data (pre ++ r :: post)
              = WebsiteSrc.Json "safe"
                  (Some (GeoJSON.mkResponse (GeoJSON.code data) (Some [r])))).
    { unfold WebsiteSrc.rerouteReply. now rewrite Hfind. }
    repeat split; trivial.
    intros Hcode Hroutes. unfold WebsiteSrc.apiReroute.
    rewrite Hcode, Hroutes. cbn [String.eqb Ascii.eqb Bool.eqb negb].
    rewrite Hcode in Hreply. rewrite <- Hreply.
    destruct pre; reflexivity.
Qed.

(** Candidate 1 clips the zone and candidate 2 only touches its boundary:
    candidate 2 is returned. *)
Lemma selector_returns_first_safe_witness :
  WebsiteSrc.apiReroute [Examples.degreeZoneH] (Some Examples.ranked)
  = WebsiteSrc.Json "safe"
      (Some (GeoJSON.mkResponse "Ok" (Some [Examples.boundaryRoute]))).
Proof.
  apply (proj2 (selector_returns_first_safe
                  [Examples.degreeZoneH] Examples.ranked
                  [Examples.centreRoute; Examples.boundaryRoute])
           [Examples.centreRoute] Examples.boundaryRoute []).
  - reflexivity.
  - intros q [<- | []]. exact centreRoute_unsafe.
  - exact boundaryRoute_safe.
  - reflexivity.
  - reflexivity.
Defined.

(** C4.  When every candidate is UNSAFE, the selection finds no route and the
    answer is the distinguished [no_safe_alternatives_found] status: neither
    a route nor an error.  This is so for lines 91-99 on any candidate list,
    and for the whole handler on every provider answer that reaches them
    (code ["Ok"], at least one route). *)
Theorem selector_reports_no_safe_alternative :
  forall (zones : list WebsiteSrc.Zone) (data : GeoJSON.Response)
         (routes : list GeoJSON.Route),
    (forall q, In q routes -> WebsiteSrc.isRouteUnsafe zones q = true) ->
    WebsiteSrc.safeRoute zones routes = None /\
    WebsiteSrc.rerouteReply zones data routes
    = WebsiteSrc.Json "no_safe_alternatives_found" None /\
    (routes <> [] ->
     GeoJSON.code data = "Ok"%string ->
     GeoJSON.routes data = Some routes ->
     WebsiteSrc.apiReroute zones (Some data)
     = WebsiteSrc.Json "no_safe_alternatives_found" None).
Proof.
  intros zones data routes Hall.
  assert (Hfind : WebsiteSrc.safeRoute zones routes = None).
  { unfold WebsiteSrc.safeRoute, JS.find. apply find_none_all.
    intros q Hq. now rewrite (Hall q Hq). }
  assert (Hreply : WebsiteSrc.rerouteReply zones data routes
                   = WebsiteSrc.Json "no_safe_alternatives_found" None).
  { unfold WebsiteSrc.rerouteReply. now rewrite Hfind. }
  repeat split; trivial.
  intros Hne Hcode Hroutes. unfold WebsiteSrc.apiReroute.
  rewrite Hcode, Hroutes. cbn [String.eqb Ascii.eqb Bool.eqb negb].
  rewrite <- Hreply. destruct routes; [contradiction | reflexivity].
Qed.

(** Both candidates pass through a configured red zone. *)
Lemma selector_reports_no_safe_alternative_witness :
  WebsiteSrc.apiReroute WebsiteSrc.redZones (Some Examples.allClipping)
  = WebsiteSrc.Json "no_safe_alternatives_found" None.
Proof.
  apply (selector_reports_no_safe_alternative
           WebsiteSrc.redZones Examples.allClipping
           [Examples.throughDelhi; Examples.throughLucknow]).
  - intros q [<- | [<- | []]].
    + exact throughDelhi_unsafe.
    + exact throughLucknow_unsafe.
  - discriminate.
  - reflexivity.
  - reflexivity.
Defined.

(** ** What the verdict carries *)

Lemma firstZone_none (zones : list WebsiteSrc.Zone) (p : GeoJSON.Position) :
  Spec.firstZone zones p = None ->
  WebsiteSrc.zoneLoop (snd p) (fst p) zones = false.
Proof.
  unfold Spec.firstZone, Spec.distanceH.
  induction zones as [|z zs IH]; cbn; [reflexivity|].
  destruct (JS.lt _ _); [discriminate | exact IH].
Qed.

Lemma firstZone_some (zones : list WebsiteSrc.Zone) (p : GeoJSON.Position)
      (z : WebsiteSrc.Zone) :
  Spec.firstZone zones p = Some z ->
  WebsiteSrc.zoneLoop (snd p) (fst p) zones = true /\
  exists before after,
    zones = before ++ z :: after /\ Spec.withinH p z /\
    forall z', In z' before -> ~ Spec.withinH p z'.
Proof.
  intros H. split.
  - apply HaversineScan.zoneLoop_true. exists z.
    apply find_some in H as [Hin Hlt]. split; [exact Hin|].
    now apply lt_true_iff.
  - apply find_some_split in H as (before & after & -> & Hz & Hb).
    exists before, after. repeat split.
    + now apply lt_true_iff.
    + intros z' Hz' Hw. apply lt_true_iff in Hw.
      rewrite (Hb z' Hz') in Hw. discriminate.
Qed.

(** The pair at which the nested loops of [isRouteUnsafe] return. *)
Lemma firstViolation_of_unsafe (zones : list WebsiteSrc.Zone)
      (ps : list GeoJSON.Position) :
  WebsiteSrc.coordLoop zones ps = true ->
  exists p z earlier later,
    Spec.firstViolation zones ps = Some (p, z) /\
    ps = earlier ++ p :: later /\ In z zones /\ Spec.withinH p z /\
    (forall q z', In q earlier -> In z' zones -> ~ Spec.withinH q z').
Proof.
  induction ps as [|[lng lat] ps IH]; cbn; [discriminate|].
  destruct (Spec.firstZone zones (lng, lat)) as [z|] eqn:Hfz.
  - intros _. destruct (firstZone_some _ _ _ Hfz)
      as [_ (before & after & Hz & Hw & _)].
    exists (lng, lat), z, [], ps. repeat split; trivial.
    + rewrite Hz. apply in_elt.
    + intros q z' [].
  - pose proof (firstZone_none _ _ Hfz) as Hnone. cbn in Hnone.
    rewrite Hnone. intros H.
    destruct (IH H) as (p & z & earlier & later & Hfv & -> & Hz & Hw & He).
    exists p, z, ((lng, lat) :: earlier), later. repeat split; trivial.
    intros q z' [<- | Hq] Hz' Hw'.
    + assert (Ht : WebsiteSrc.zoneLoop lat lng zones = true).
      { apply (HaversineScan.zoneLoop_true (lng, lat)). now exists z'. }
      rewrite Hnone in Ht. discriminate.
    + exact (He q z' Hq Hz' Hw').
Qed.

Lemma firstViolation_point (zones : list WebsiteSrc.Zone)
      (ps : list GeoJSON.Position) (p : GeoJSON.Position)
      (z : WebsiteSrc.Zone) :
  Spec.firstViolation zones ps = Some (p, z) -> In p ps.
Proof.
  induction ps as [|q ps IH]; cbn; [discriminate|].
  destruct (Spec.firstZone zones q).
  - intros [= -> _]. now left.
  - intros H. right. now apply IH.
Qed.

(** C7, as stated, fails.  The verdict is a bare boolean: the routes
    [throughDelhi] and [throughLucknow] are both UNSAFE and get the very same
    value [true], although their first violations are different pairs; so no
    reading of the verdict can cite the violated zone and matching point. *)
Lemma verdict_cites_no_violation :
  WebsiteSrc.isRouteUnsafe WebsiteSrc.redZones Examples.throughDelhi = true /\
  WebsiteSrc.isRouteUnsafe WebsiteSrc.redZones Examples.throughLucknow = true /\
  Spec.firstViolation WebsiteSrc.redZones [Examples.delhi]
  <> Spec.firstViolation WebsiteSrc.redZones [Examples.lucknow] /\
  ~ (exists cite : bool -> option (GeoJSON.Position * WebsiteSrc.Zone),
       forall route,
         WebsiteSrc.isRouteUnsafe WebsiteSrc.redZones route = true ->
         cite (WebsiteSrc.isRouteUnsafe WebsiteSrc.redZones route)
         = Spec.firstViolation WebsiteSrc.redZones
             (GeoJSON.coordinates (GeoJSON.geometry route))).
Proof.
  assert (Hdiff : Spec.firstViolation WebsiteSrc.redZones [Examples.delhi]
                  <> Spec.firstViolation WebsiteSrc.redZones
                       [Examples.lucknow]).
  { destruct (firstViolation_of_unsafe WebsiteSrc.redZones [Examples.delhi]
                throughDelhi_unsafe)
      as (p & z & earlier & later & Hfv & _).
    intros Heq. rewrite Hfv in Heq.
    pose proof (firstViolation_point _ _ _ _ Hfv) as [<- | []].
    symmetry in Heq.
    pose proof (firstViolation_point _ _ _ _ Heq) as [Hp | []].
    unfold Examples.lucknow, Examples.delhi in Hp.
    injection Hp as H1 H2. lra. }
  repeat split.
  - exact throughDelhi_unsafe.
  - exact throughLucknow_unsafe.
  - exact Hdiff.
  - intros [cite Hcite].
    pose proof (Hcite Examples.throughDelhi throughDelhi_unsafe) as H1.
    pose proof (Hcite Examples.throughLucknow throughLucknow_unsafe) as H2.
    rewrite throughDelhi_unsafe in H1.
    rewrite throughLucknow_unsafe in H2.
    apply Hdiff.
    change (cite true
            = Spec.firstViolation WebsiteSrc.redZones [Examples.delhi])
      in H1.
    change (cite true
            = Spec.firstViolation WebsiteSrc.redZones [Examples.lucknow])
      in H2.
    now rewrite <- H1, <- H2.
Qed.

(** C7, amended.  Whenever [isRouteUnsafe] answers UNSAFE there is a first
    matching point/zone pair in traversal order, the one at which the loops
    return: its point is a vertex of the route, its zone a configured zone
    containing that point, and no earlier vertex lies in any zone.  The value
    returned is nevertheless only the boolean, and [/api/route] sends only the
    status ["unsafe"] with the provider's answer; likewise [routeUnsafe]
    answers UNSAFE only when some vertex lies in some zone. *)
Theorem unsafe_verdict_has_first_violation :
  forall (zones : list WebsiteSrc.Zone) (zonesC : list Website.Zone)
         (route : GeoJSON.Route),
    let vertices := GeoJSON.coordinates (GeoJSON.geometry route) in
    (WebsiteSrc.isRouteUnsafe zones route = true ->
     exists p z earlier later,
       Spec.firstViolation zones vertices = Some (p, z) /\
       vertices = earlier ++ p :: later /\ In z zones /\ Spec.withinH p z /\
       (forall q z', In q earlier -> In z' zones -> ~ Spec.withinH q z')) /\
    (forall data rest,
       WebsiteSrc.isRouteUnsafe zones route = true ->
       GeoJSON.code data = "Ok"%string ->
       GeoJSON.routes data = Some (route :: rest) ->
       WebsiteSrc.apiRoute zones (Some data)
       = WebsiteSrc.Json "unsafe" (Some data)) /\
    (Website.routeUnsafe zonesC route = true ->
     exists p z, In p vertices /\ In z zonesC /\ Spec.withinC p z).
Proof.
  intros zones zonesC route vertices. repeat split.
  - apply firstViolation_of_unsafe.
  - intros data rest Hu Hcode Hroutes. unfold WebsiteSrc.apiRoute.
    rewrite Hcode, Hroutes. cbn [String.eqb Ascii.eqb Bool.eqb negb].
    now rewrite Hu.
  - apply (proj2 (classifier_unsafe_iff [] zonesC route)).
Qed.

Lemma unsafe_verdict_has_first_violation_witness :
  (exists p z earlier later,
     Spec.firstViolation WebsiteSrc.redZones [Examples.delhi] = Some (p, z) /\
     [Examples.delhi] = earlier ++ p :: later /\
     In z WebsiteSrc.redZones /\ Spec.withinH p z /\
     (forall q z', In q earlier -> In z' WebsiteSrc.redZones ->
                   ~ Spec.withinH q z')) /\
  WebsiteSrc.apiRoute WebsiteSrc.redZones (Some Examples.delhiAnswer)
  = WebsiteSrc.Json "unsafe" (Some Examples.delhiAnswer).
Proof.
  destruct (unsafe_verdict_has_first_violation
              WebsiteSrc.redZones [] Examples.throughDelhi) as (H1 & H2 & _).
  split.
  - apply H1. exact throughDelhi_unsafe.
  - apply (H2 Examples.delhiAnswer []).
    + exact throughDelhi_unsafe.
    + reflexivity.
    + reflexivity.
Defined.

(** ** Inputs outside the data model *)

Lemma cosAngle_full_turn (phi : R) : Spec.cosAngle phi phi (- (2 * PI)) = 1.
Proof.
  unfold Spec.cosAngle. rewrite cos_neg, cos_2PI.
  pose proof (sin2_cos2 phi) as H. unfold Rsqr in H. lra.
Qed.

Lemma wrapped_turn :
  (772090 / 10000 - 4372090 / 10000) * PI / 180 = - (2 * PI).
Proof. field. Qed.

Lemma wrappedDelhi_invalid :
  ~ Spec.validGeoPoint (snd Examples.wrappedDelhi) (fst Examples.wrappedDelhi).
Proof.
  unfold Spec.validGeoPoint, Examples.wrappedDelhi. cbn [fst snd]. lra.
Qed.

Lemma wrappedRoute_unsafeH :
  WebsiteSrc.isRouteUnsafe WebsiteSrc.redZones Examples.wrappedRoute = true.
Proof.
  apply (proj1 (classifier_unsafe_iff WebsiteSrc.redZones []
                  Examples.wrappedRoute)).
  exists Examples.wrappedDelhi, (nth 0 WebsiteSrc.redZones Examples.degreeZoneH).
  split; [now left|]. split; [now left|].
  exists 0. split; [|cbn; lra].
  unfold Spec.distanceH. cbn [nth WebsiteSrc.redZones WebsiteSrc.coordinates
                               Examples.wrappedDelhi fst snd].
  rewrite haversineDistance_value, wrapped_turn, cosAngle_full_turn, acos_1.
  f_equal. ring.
Qed.

Lemma wrappedRoute_unsafeC :
  Website.routeUnsafe Website.redZones Examples.wrappedRoute = true.
Proof.
  apply (proj2 (classifier_unsafe_iff [] Website.redZones
                  Examples.wrappedRoute)).
  exists Examples.wrappedDelhi, (nth 0 Website.redZones Examples.degreeZone).
  split; [now left|]. split; [now left|].
  exists 0. split; [|cbn; lra].
  unfold Spec.distanceC. cbn [nth Website.redZones Website.lat Website.lon
                               Examples.wrappedDelhi fst snd].
  rewrite distance_value, wrapped_turn, cosAngle_full_turn, acos_1.
  f_equal. ring.
Qed.

(** C8, as stated, fails.  A polyline without vertices is not rejected: it is
    classified SAFE, and [/route] reports it as a safe route.  A vertex whose
    longitude, 437.209 degrees, is out of range is not rejected either: the
    route through it is classified UNSAFE by both classifiers and reported as
    such. *)
Lemma malformed_input_gets_a_verdict :
  WebsiteSrc.isRouteUnsafe WebsiteSrc.redZones Examples.emptyRoute = false /\
  Website.route Website.redZones (Some "77.1,28.5;77.3,28.7"%string)
    (Some Examples.emptyAnswer)
  = Website.Json Examples.emptyAnswer false "Safe route." /\
  ~ Spec.validGeoPoint (snd Examples.wrappedDelhi)
      (fst Examples.wrappedDelhi) /\
  WebsiteSrc.isRouteUnsafe WebsiteSrc.redZones Examples.wrappedRoute = true /\
  Website.route Website.redZones (Some "77.1,28.5;77.3,28.7"%string)
    (Some Examples.wrappedAnswer)
  = Website.Json Examples.wrappedAnswer true
      "This route passes through a red zone.".
Proof.
  split; [|split; [|split; [|split]]].
  - reflexivity.
  - reflexivity.
  - exact wrappedDelhi_invalid.
  - exact wrappedRoute_unsafeH.
  - cbn [Website.route Examples.wrappedAnswer GeoJSON.routes].
    now rewrite wrappedRoute_unsafeC.
Qed.

(** C8, amended.  The core validates neither GeoPoints nor polylines.  Both
    classifiers give the empty polyline the verdict SAFE; [/route] rejects
    only a missing or empty [coords] parameter (status 400, before anything
    is evaluated), and for every other request whose provider answer has a
    first route it reports the classifier's verdict on that route, whatever
    its vertices are. *)
Theorem only_missing_coords_rejected :
  forall (zonesH : list WebsiteSrc.Zone) (zonesC : list Website.Zone)
         (coords : string) (fetched : option GeoJSON.Response)
         (data : GeoJSON.Response) (route : GeoJSON.Route)
         (rest : list GeoJSON.Route),
    (WebsiteSrc.isRouteUnsafe zonesH Examples.emptyRoute = false /\
     Website.routeUnsafe zonesC Examples.emptyRoute = false) /\
    (Website.route zonesC None fetched
     = Website.Status400 "Coordinates are missing" /\
     Website.route zonesC (Some EmptyString) fetched
     = Website.Status400 "Coordinates are missing") /\
    (coords <> EmptyString ->
     GeoJSON.routes data = Some (route :: rest) ->
     Website.route zonesC (Some coords) (Some data)
     = Website.Json data (Website.routeUnsafe zonesC route)
         (if Website.routeUnsafe zonesC route
          then "This route passes through a red zone."
          else "Safe route.")).
Proof.
  intros zonesH zonesC coords fetched data route rest.
  split; [|split].
  - split; reflexivity.
  - split; reflexivity.
  - intros Hne Hroutes. unfold Website.route.
    destruct coords as [|c coords]; [contradiction|].
    now rewrite Hroutes.
Qed.

Lemma only_missing_coords_rejected_witness :
  Website.route Website.redZones (Some "77.1,28.5;77.3,28.7"%string)
    (Some Examples.wrappedAnswer)
  = Website.Json Examples.wrappedAnswer
      (Website.routeUnsafe Website.redZones Examples.wrappedRoute)
      (if Website.routeUnsafe Website.redZones Examples.wrappedRoute
       then "This route passes through a red zone."
       else "Safe route.").
Proof.
  apply (proj2 (proj2 (only_missing_coords_rejected
                         [] Website.redZones "77.1,28.5;77.3,28.7" None
                         Examples.wrappedAnswer Examples.wrappedRoute []))).
  - discriminate.
  - reflexivity.
Defined.

(** ** The two distance functions side by side *)

Lemma one_degree_gap :
  Rabs (PI / 180 * 6378137 - 6371000 * (PI / 180)) = 7137 * (PI / 180).
Proof.
  pose proof PI_RGT_0 as Hpi.
  replace (PI / 180 * 6378137 - 6371000 * (PI / 180))
    with (7137 * (PI / 180)) by field.
  apply Rabs_pos_eq. lra.
Qed.

(** C9, as stated, fails.  Between the points (0 N, 1 E) and (0 N, 0 E), about
    111 km apart, the haversine function returns [6371000 * PI / 180] and the
    law-of-cosines function [6378137 * PI / 180]; their difference is not
    below 0.1% of either result. *)
Lemma distances_diverge_over_one_degree :
  exists dh dc,
    WebsiteSrc.haversineDistance 0 1 0 0 = Some dh /\
    Website.distance 0 1 0 0 = Some dc /\
    0 < dh /\
    ~ Rabs (dc - dh) < dh / 1000 /\
    ~ Rabs (dc - dh) < dc / 1000.
Proof.
  exists (6371000 * (PI / 180)), (PI / 180 * 6378137).
  pose proof PI_RGT_0 as Hpi.
  split; [exact haversineDistance_one_degree|].
  split; [exact distance_one_degree|].
  rewrite one_degree_gap.
  split; [lra|]. split; lra.
Qed.

(** C9, amended.  At regional scales, taken as a haversine result between
    1 km and 1000 km, the law-of-cosines function returns a number as well,
    and the two results diverge by less than 0.12% of the haversine result,
    though by more than 0.1% of it: the two functions multiply the same
    central angle by Earth radii that differ by 0.112%. *)
Theorem regional_distances_diverge_by_radius_ratio :
  forall lat1 lon1 lat2 lon2 dh : R,
    WebsiteSrc.haversineDistance lat1 lon1 lat2 lon2 = Some dh ->
    1000 <= dh <= 1000000 ->
    exists dc,
      Website.distance lat1 lon1 lat2 lon2 = Some dc /\
      Rabs (dc - dh) < dh * (12 / 10000) /\
      dh / 1000 < Rabs (dc - dh).
Proof.
  intros lat1 lon1 lat2 lon2 dh Hh [Hlo Hhi].
  rewrite haversineDistance_value in Hh. injection Hh as <-.
  rewrite distance_value.
  set (x := Spec.cosAngle _ _ _) in *.
  exists (acos x * 6378137). split; [reflexivity|].
  replace (acos x * 6378137 - 6371000 * acos x) with (7137 * acos x)
    by ring.
  rewrite Rabs_pos_eq by lra. lra.
Qed.

(** One degree of longitude along the equator is at regional scale. *)
Lemma regional_distances_diverge_by_radius_ratio_witness :
  exists dc,
    Website.distance 0 1 0 0 = Some dc /\
    Rabs (dc - 6371000 * (PI / 180)) < 6371000 * (PI / 180) * (12 / 10000) /\
    6371000 * (PI / 180) / 1000 < Rabs (dc - 6371000 * (PI / 180)).
Proof.
  apply (regional_distances_diverge_by_radius_ratio 0 1 0 0
           (6371000 * (PI / 180)) haversineDistance_one_degree).
  pose proof PI2_3_2. pose proof PI_4. lra.
Defined.

(** * Further properties of the code *)

(** ** The distance functions *)

Lemma cosAngle_sym (phi1 phi2 dlam : R) :
  Spec.cosAngle phi1 phi2 dlam = Spec.cosAngle phi2 phi1 (- dlam).
Proof. unfold Spec.cosAngle. rewrite cos_neg. ring. Qed.

(** X1.  Both distance functions are symmetric: the distance from the first
    point to the second is the distance from the second to the first. *)
Theorem distances_symmetric :
  forall lat1 lon1 lat2 lon2 : R,
    WebsiteSrc.haversineDistance lat1 lon1 lat2 lon2
    = WebsiteSrc.haversineDistance lat2 lon2 lat1 lon1 /\
    Website.distance lat1 lon1 lat2 lon2
    = Website.distance lat2 lon2 lat1 lon1.
Proof.
  intros lat1 lon1 lat2 lon2.
  rewrite !haversineDistance_value, !distance_value.
  rewrite (cosAngle_sym (lat1 * PI / 180)).
  replace (- ((lon2 - lon1) * PI / 180)) with ((lon1 - lon2) * PI / 180)
    by field.
  split; reflexivity.
Qed.

(** ** The point check of the map component and the route check *)

Lemma isInsideRedZone_zoneLoop (zones : list WebsiteSrc.Zone) (lat lng : R) :
  Client.isInsideRedZone zones lat lng = WebsiteSrc.zoneLoop lat lng zones.
Proof. symmetry. apply HaversineScan.zoneLoop_some. Qed.

(** X3.  The nested loops of [isRouteUnsafe] compute the same answer as asking
    [isInsideRedZone] of the map component for some vertex of the route; and
    the point check is the route check of the one-vertex route. *)
Theorem route_check_is_some_point_check :
  forall (zones : list WebsiteSrc.Zone) (route : GeoJSON.Route)
         (lat lng : R),
    WebsiteSrc.isRouteUnsafe zones route
    = JS.some (fun c => Client.isInsideRedZone zones (snd c) (fst c))
              (GeoJSON.coordinates (GeoJSON.geometry route)) /\
    Client.isInsideRedZone zones lat lng
    = WebsiteSrc.isRouteUnsafe zones (GeoJSON.ofPositions [(lng, lat)]).
Proof.
  intros zones route lat lng. split.
  - unfold WebsiteSrc.isRouteUnsafe. rewrite HaversineScan.coordLoop_some.
    unfold JS.some.
    induction (GeoJSON.coordinates (GeoJSON.geometry route)) as [|c cs IH];
      cbn; [reflexivity|].
    now rewrite IH, isInsideRedZone_zoneLoop.
  - rewrite isInsideRedZone_zoneLoop.
    unfold WebsiteSrc.isRouteUnsafe. cbn.
    now destruct (WebsiteSrc.zoneLoop lat lng zones).
Qed.

(** X4.  Verdicts compose: a polyline made of two parts is UNSAFE exactly when
    one of the parts is, and a route is UNSAFE against two zone lists put
    together exactly when it is against one of them; for both classifiers. *)
Theorem classifier_distributes_over_append :
  forall (ZH ZH' : list WebsiteSrc.Zone) (ZC ZC' : list Website.Zone)
         (ps qs : list GeoJSON.Position) (route : GeoJSON.Route),
    WebsiteSrc.isRouteUnsafe ZH (GeoJSON.ofPositions (ps ++ qs))
    = WebsiteSrc.isRouteUnsafe ZH (GeoJSON.ofPositions ps)
      || WebsiteSrc.isRouteUnsafe ZH (GeoJSON.ofPositions qs) /\
    Website.routeUnsafe ZC (GeoJSON.ofPositions (ps ++ qs))
    = Website.routeUnsafe ZC (GeoJSON.ofPositions ps)
      || Website.routeUnsafe ZC (GeoJSON.ofPositions qs) /\
    WebsiteSrc.isRouteUnsafe (ZH ++ ZH') route
    = WebsiteSrc.isRouteUnsafe ZH route
      || WebsiteSrc.isRouteUnsafe ZH' route /\
    Website.routeUnsafe (ZC ++ ZC') route
    = Website.routeUnsafe ZC route || Website.routeUnsafe ZC' route.
Proof.
  intros ZH ZH' ZC ZC' ps qs route.
  split; [|split; [|split]].
  - apply HaversineScan.coordLoop_app.
  - rewrite !CosineScan.routeUnsafe_some. cbn. apply existsb_app.
  - apply bool_eq_of_iff. rewrite orb_true_iff.
    rewrite !(proj1 (classifier_unsafe_iff _ [] route)).
    split.
    + intros [p [z [Hp [Hz Hw]]]]. apply in_app_or in Hz as [Hz | Hz];
        [left | right]; now exists p, z.
    + intros [[p [z [Hp [Hz Hw]]]] | [p [z [Hp [Hz Hw]]]]];
        exists p, z; repeat split; trivial; apply in_or_app; auto.
  - apply bool_eq_of_iff. rewrite orb_true_iff.
    rewrite !(proj2 (classifier_unsafe_iff [] _ route)).
    split.
    + intros [p [z [Hp [Hz Hw]]]]. apply in_app_or in Hz as [Hz | Hz];
        [left | right]; now exists p, z.
    + intros [[p [z [Hp [Hz Hw]]]] | [p [z [Hp [Hz Hw]]]]];
        exists p, z; repeat split; trivial; apply in_or_app; auto.
Qed.

(** ** The two endpoints of [src/website/src/Backend/backend.js] *)

Lemma apiReroute_safe_inv (zones : list WebsiteSrc.Zone)
      (fetched : option GeoJSON.Response) (body : option GeoJSON.Response) :
  WebsiteSrc.apiReroute zones fetched = WebsiteSrc.Json "safe" body ->
  exists data routes r,
    fetched = Some data /\ GeoJSON.code data = "Ok"%string /\
    GeoJSON.routes data = Some routes /\
    WebsiteSrc.safeRoute zones routes = Some r /\
    body = Some (GeoJSON.mkResponse "Ok" (Some [r])).
Proof.
  unfold WebsiteSrc.apiReroute.
  destruct fetched as [data|]; [|discriminate].
  destruct (negb (String.eqb (GeoJSON.code data) "Ok")) eqn:Hcode;
    [discriminate|].
  assert (Hok : GeoJSON.code data = "Ok"%string).
  { apply negb_false_iff in Hcode. now apply String.eqb_eq. }
  destruct (GeoJSON.routes data) as [[|q rest]|] eqn:Hroutes;
    try discriminate.
  unfold WebsiteSrc.rerouteReply.
  destruct (WebsiteSrc.safeRoute zones (q :: rest)) as [r|] eqn:Hfind;
    [|discriminate].
  intros [= <-]. exists data, (q :: rest), r. rewrite Hok. auto.
Qed.

Lemma safeRoute_safe (zones : list WebsiteSrc.Zone)
      (routes : list GeoJSON.Route) (r : GeoJSON.Route) :
  WebsiteSrc.safeRoute zones routes = Some r ->
  In r routes /\ WebsiteSrc.isRouteUnsafe zones r = false.
Proof.
  intros H. apply find_some in H as [Hin Hsafe].
  split; [exact Hin | now apply negb_true_iff in Hsafe].
Qed.

(** X7.  The two endpoints are consistent with each other.  The body of a
    ["safe"] answer of [/api/reroute], classified again as [/api/route]
    classifies a provider answer, is ["safe"] with the same body; a provider
    answer that [/api/route] calls ["safe"] makes [/api/reroute] return its
    first route alone; and a provider answer for which [/api/reroute] finds
    no safe alternative is one that [/api/route] calls ["unsafe"]. *)
Theorem endpoints_consistent :
  forall (zones : list WebsiteSrc.Zone) (data : GeoJSON.Response),
    (forall body,
       WebsiteSrc.apiReroute zones (Some data)
       = WebsiteSrc.Json "safe" (Some body) ->
       WebsiteSrc.apiRoute zones (Some body)
       = WebsiteSrc.Json "safe" (Some body)) /\
    (WebsiteSrc.apiRoute zones (Some data)
     = WebsiteSrc.Json "safe" (Some data) ->
     exists r rest,
       GeoJSON.routes data = Some (r :: rest) /\
       WebsiteSrc.apiReroute zones (Some data)
       = WebsiteSrc.Json "safe"
           (Some (GeoJSON.mkResponse "Ok" (Some [r])))) /\
    (WebsiteSrc.apiReroute zones (Some data)
     = WebsiteSrc.Json "no_safe_alternatives_found" None ->
     WebsiteSrc.apiRoute zones (Some data)
     = WebsiteSrc.Json "unsafe" (Some data)).
Proof.
  intros zones data. split; [|split].
  - intros body H.
    apply apiReroute_safe_inv in H
      as (d & routes & r & _ & _ & _ & Hfind & [= ->]).
    apply safeRoute_safe in Hfind as [_ Hsafe].
    cbn. now rewrite Hsafe.
  - unfold WebsiteSrc.apiRoute, WebsiteSrc.apiReroute.
    destruct (negb (String.eqb (GeoJSON.code data) "Ok")) eqn:Hcode;
      [discriminate|].
    assert (Hok : GeoJSON.code data = "Ok"%string).
    { apply negb_false_iff in Hcode. now apply String.eqb_eq. }
    destruct (GeoJSON.routes data) as [[|r rest]|]; try discriminate.
    destruct (WebsiteSrc.isRouteUnsafe zones r) eqn:Hr; [discriminate|].
    intros _. exists r, rest. split; [reflexivity|].
    unfold WebsiteSrc.rerouteReply, WebsiteSrc.safeRoute, JS.find. cbn.
    now rewrite Hr, Hok.
  - unfold WebsiteSrc.apiRoute, WebsiteSrc.apiReroute.
    destruct (negb (String.eqb (GeoJSON.code data) "Ok")) eqn:Hcode;
      [discriminate|].
    destruct (GeoJSON.routes data) as [[|r rest]|]; try discriminate.
    unfold WebsiteSrc.rerouteReply, WebsiteSrc.safeRoute, JS.find. cbn.
    destruct (WebsiteSrc.isRouteUnsafe zones r); [reflexivity|].
    discriminate.
Qed.

Lemma endpoints_consistent_witness :
  WebsiteSrc.apiRoute [Examples.degreeZoneH]
    (Some (GeoJSON.mkResponse "Ok" (Some [Examples.boundaryRoute])))
  = WebsiteSrc.Json "safe"
      (Some (GeoJSON.mkResponse "Ok" (Some [Examples.boundaryRoute]))) /\
  (exists r rest,
     GeoJSON.routes MoreExamples.safeFirst = Some (r :: rest) /\
     WebsiteSrc.apiReroute [Examples.degreeZoneH]
       (Some MoreExamples.safeFirst)
     = WebsiteSrc.Json "safe"
         (Some (GeoJSON.mkResponse "Ok" (Some [r])))) /\
  WebsiteSrc.apiRoute WebsiteSrc.redZones (Some Examples.allClipping)
  = WebsiteSrc.Json "unsafe" (Some Examples.allClipping).
Proof.
  split; [|split].
  - apply (proj1 (endpoints_consistent [Examples.degreeZoneH]
                    Examples.ranked)).
    unfold WebsiteSrc.apiReroute, WebsiteSrc.rerouteReply,
      WebsiteSrc.safeRoute, JS.find.
    cbn -[WebsiteSrc.isRouteUnsafe].
    now rewrite centreRoute_unsafe, boundaryRoute_safe.
  - apply (proj1 (proj2 (endpoints_consistent [Examples.degreeZoneH]
                           MoreExamples.safeFirst))).
    unfold WebsiteSrc.apiRoute. cbn -[WebsiteSrc.isRouteUnsafe].
    now rewrite boundaryRoute_safe.
  - apply (proj2 (proj2 (endpoints_consistent WebsiteSrc.redZones
                           Examples.allClipping))).
    unfold WebsiteSrc.apiReroute, WebsiteSrc.rerouteReply,
      WebsiteSrc.safeRoute, JS.find.
    cbn -[WebsiteSrc.isRouteUnsafe].
    now rewrite throughDelhi_unsafe, throughLucknow_unsafe.
Defined.

(** ** Snapping to the nearest road *)

(** X8.  Snapping degrades gracefully: [snappedPoints] has one point per raw
    point; each is either the raw point itself or the location of the first
    waypoint of an ["Ok"] answer; and when every request fails or brings no
    usable waypoint, the snapped points are the raw points unchanged. *)
Theorem snapping_degrades_gracefully :
  forall (service : R -> R -> option Nearest.Response)
         (rawPoints : list GeoJSON.Position),
    List.length (Nearest.snappedPoints service rawPoints)
    = List.length rawPoints /\
    Forall2
      (fun raw snapped =>
         snapped = raw \/
         exists data first others,
           service (fst raw) (snd raw) = Some data /\
           Nearest.code data = "Ok"%string /\
           Nearest.waypoints data = Some (first :: others) /\
           snapped = Nearest.location first)
      rawPoints (Nearest.snappedPoints service rawPoints) /\
    ((forall lon lat,
        In (lon, lat) rawPoints ->
        service lon lat = None \/
        exists data,
          service lon lat = Some data /\
          (Nearest.code data <> "Ok"%string \/
           Nearest.waypoints data = None \/
           Nearest.waypoints data = Some [])) ->
     Nearest.snappedPoints service rawPoints = rawPoints).
Proof.
  intros service rawPoints. unfold Nearest.snappedPoints.
  split; [apply length_map | split].
  - induction rawPoints as [|[lon lat] ps IH]; cbn; constructor; trivial.
    unfold Nearest.snapToRoad. cbn [fst snd].
    destruct (service lon lat) as [data|] eqn:Hs; [|now left].
    destruct (String.eqb (Nearest.code data) "Ok") eqn:Hcode; [|now left].
    destruct (Nearest.waypoints data) as [[|first others]|] eqn:Hw;
      try (now left).
    right. exists data, first, others.
    apply String.eqb_eq in Hcode. auto.
  - induction rawPoints as [|[lon lat] ps IH]; intros Hall; cbn;
      [reflexivity|].
    rewrite IH by (intros lo la Hin; apply Hall; now right).
    f_equal. unfold Nearest.snapToRoad.
    destruct (Hall lon lat (or_introl eq_refl))
      as [-> | [data [-> [Hc | [Hw | Hw]]]]]; trivial.
    + apply String.eqb_neq in Hc. now rewrite Hc.
    + rewrite Hw. now destruct (String.eqb _ _).
    + rewrite Hw. now destruct (String.eqb _ _).
Qed.

Lemma snapping_degrades_gracefully_witness :
  Nearest.snappedPoints MoreExamples.serviceDown
    [Examples.delhi; Examples.lucknow]
  = [Examples.delhi; Examples.lucknow].
Proof.
  apply (proj2 (proj2 (snapping_degrades_gracefully
                         MoreExamples.serviceDown
                         [Examples.delhi; Examples.lucknow]))).
  intros lon lat _. now left.
Defined.

(** ** The map component on the backend's replies *)

(** X9.  Whatever the provider answered, the handlers of the map component
    end normally on the backend's reply: every reply whose status makes them
    call [formatCoords] carries a route object with a first route, so
    [routes[0].geometry] is never read off [undefined]. *)
Theorem client_handles_every_backend_reply :
  forall (zones : list WebsiteSrc.Zone) (fetched : option GeoJSON.Response)
         (view : Client.View),
    (exists v,
       Client.getRoute view (Some (WebsiteSrc.apiRoute zones fetched))
       = Client.Done v) /\
    (exists v,
       Client.handleReroute view
         (Some (WebsiteSrc.apiReroute zones fetched))
       = Client.Done v).
Proof.
  intros zones fetched view.
  unfold WebsiteSrc.apiRoute, WebsiteSrc.apiReroute,
    WebsiteSrc.rerouteReply.
  destruct fetched as [data|]; [|split; eexists; reflexivity].
  destruct (negb (String.eqb (GeoJSON.code data) "Ok"));
    [split; eexists; reflexivity|].
  destruct (GeoJSON.routes data) as [[|r rest]|] eqn:Hroutes;
    try (split; eexists; reflexivity).
  split.
  - destruct (WebsiteSrc.isRouteUnsafe zones r);
      unfold Client.getRoute; cbn; rewrite Hroutes; eexists; reflexivity.
  - destruct (WebsiteSrc.safeRoute zones (r :: rest));
      eexists; reflexivity.
Qed.

(** X10.  End to end.  When the provider's answer is ["Ok"] with a first
    route, [getRoute] on the reply of [/api/route] draws that route, with
    each position swapped to [lat, lng], as the safe route when the
    classifier calls it safe, and as the unsafe route with the reroute
    prompt otherwise.  When the ranked candidates are UNSAFE routes followed
    by a SAFE route, [handleReroute] on the reply of [/api/reroute] draws
    that SAFE route, clears the unsafe one and raises no alert. *)
Theorem client_draws_classified_route :
  forall (zones : list WebsiteSrc.Zone) (data : GeoJSON.Response)
         (view : Client.View),
    GeoJSON.code data = "Ok"%string ->
    (forall r rest,
       GeoJSON.routes data = Some (r :: rest) ->
       let drawn :=
         map Client.swap (GeoJSON.coordinates (GeoJSON.geometry r)) in
       Client.getRoute view (Some (WebsiteSrc.apiRoute zones (Some data)))
       = Client.Done
           (if WebsiteSrc.isRouteUnsafe zones r
            then Client.mkView None (Some drawn) true false
                   (Client.alerts view)
            else Client.mkView (Some drawn) None (Client.showModal view)
                   false (Client.alerts view))) /\
    (forall pre r post,
       GeoJSON.routes data = Some (pre ++ r :: post) ->
       (forall q, In q pre -> WebsiteSrc.isRouteUnsafe zones q = true) ->
       WebsiteSrc.isRouteUnsafe zones r = false ->
       Client.handleReroute view
         (Some (WebsiteSrc.apiReroute zones (Some data)))
       = Client.Done
           (Client.mkView
              (Some (map Client.swap
                       (GeoJSON.coordinates (GeoJSON.geometry r))))
              None false false (Client.alerts view))).
Proof.
  intros zones data view Hcode. split.
  - intros r rest Hroutes drawn. subst drawn.
    unfold WebsiteSrc.apiRoute. rewrite Hcode, Hroutes.
    cbn [String.eqb Ascii.eqb Bool.eqb negb].
    destruct (WebsiteSrc.isRouteUnsafe zones r);
      unfold Client.getRoute; cbn; now rewrite Hroutes.
  - intros pre r post Hroutes Hpre Hr.
    assert (Hfind : WebsiteSrc.safeRoute zones (pre ++ r :: post) = Some r).
    { unfold WebsiteSrc.safeRoute, JS.find. apply find_first.
      - intros q Hq. now rewrite (Hpre q Hq).
      - now rewrite Hr. }
    unfold WebsiteSrc.apiReroute. rewrite Hcode, Hroutes.
    cbn [String.eqb Ascii.eqb Bool.eqb negb].
    replace (match pre ++ r :: post with
             | [] => WebsiteSrc.Status400 "No routes found"
             | _ :: _ =>
                 WebsiteSrc.rerouteReply zones data (pre ++ r :: post)
             end)
      with (WebsiteSrc.rerouteReply zones data (pre ++ r :: post))
      by (destruct pre; reflexivity).
    unfold WebsiteSrc.rerouteReply. rewrite Hfind. reflexivity.
Qed.

Lemma client_draws_classified_route_witness :
  Client.handleReroute MoreExamples.initialView
    (Some (WebsiteSrc.apiReroute [Examples.degreeZoneH]
             (Some Examples.ranked)))
  = Client.Done (Client.mkView (Some [(0, 1)]) None false false []).
Proof.
  apply (proj2 (client_draws_classified_route
                  [Examples.degreeZoneH] Examples.ranked
                  MoreExamples.initialView eq_refl)
           [Examples.centreRoute] Examples.boundaryRoute []).
  - reflexivity.
  - intros q [<- | []]. exact centreRoute_unsafe.
  - exact boundaryRoute_safe.
Defined.

(** ** Splitting and joining *)

Module TextFacts.

Import Text.

Lemma append_assoc (a b c : string) :
  ((a ++ b) ++ c = a ++ (b ++ c))%string.
Proof. induction a as [|x a IH]; cbn; [reflexivity | now rewrite IH]. Qed.

Lemma split_not_nil (c : ascii) (s : string) : split c s <> [].
Proof.
  destruct s as [|a s]; cbn; [discriminate|].
  destruct (Ascii.eqb a c); [discriminate|].
  destruct (split c s); discriminate.
Qed.

Lemma join_split (c : ascii) (s : string) :
  join (String c EmptyString) (split c s) = s.
Proof.
  induction s as [|a s IH]; [reflexivity|].
  cbn [split]. destruct (Ascii.eqb a c) eqn:Hac.
  - apply Ascii.eqb_eq in Hac as ->.
    pose proof (split_not_nil c s) as Hne.
    destruct (split c s) as [|x l]; [contradiction|].
    change (join (String c EmptyString) (EmptyString :: x :: l))
      with (String c (join (String c EmptyString) (x :: l))).
    now rewrite IH.
  - pose proof (split_not_nil c s) as Hne.
    destruct (split c s) as [|x l]; [contradiction|].
    destruct l as [|y l].
    + cbn [join] in *. now rewrite IH.
    + change (join (String c EmptyString) (String a x :: y :: l))
        with (String a (join (String c EmptyString) (x :: y :: l))).
      now rewrite IH.
Qed.

Lemma split_pieces_free (c : ascii) (s x : string) :
  In x (split c s) -> occurs c x = false.
Proof.
  revert x. induction s as [|a s IH]; intros x; cbn [split].
  - intros [<- | []]. reflexivity.
  - destruct (Ascii.eqb a c) eqn:Hac.
    + intros [<- | Hx]; [reflexivity | now apply IH].
    + destruct (split c s) as [|piece pieces] eqn:Hs.
      * intros [<- | []]. cbn. now rewrite Hac.
      * intros [<- | Hx].
        -- cbn. rewrite Hac. apply IH. now left.
        -- apply IH. now right.
Qed.

Lemma split_app (c : ascii) (a b : string) :
  occurs c a = false ->
  split c (a ++ String c b) = a :: split c b.
Proof.
  induction a as [|x a IH]; cbn [occurs append split].
  - intros _. now rewrite Ascii.eqb_refl.
  - intros H. apply orb_false_iff in H as [Hx Ha].
    rewrite Hx, (IH Ha). reflexivity.
Qed.

Lemma split_free (c : ascii) (s : string) :
  occurs c s = false -> split c s = [s].
Proof.
  induction s as [|x s IH]; cbn [occurs split]; [reflexivity|].
  intros H. apply orb_false_iff in H as [Hx Hs].
  now rewrite Hx, (IH Hs).
Qed.

Lemma split_join (c : ascii) (l : list string) :
  l <> [] -> (forall x, In x l -> occurs c x = false) ->
  split c (join (String c EmptyString) l) = l.
Proof.
  induction l as [|x l IH]; [contradiction|]. intros _ Hfree.
  destruct l as [|y l].
  - cbn [join]. apply split_free, Hfree. now left.
  - change (join (String c EmptyString) (x :: y :: l))
      with (x ++ String c (join (String c EmptyString) (y :: l)))%string.
    rewrite split_app by (apply Hfree; now left).
    rewrite IH; [reflexivity | discriminate |].
    intros z Hz. apply Hfree. now right.
Qed.

Lemma occurs_app (d : ascii) (a b : string) :
  occurs d (a ++ b) = occurs d a || occurs d b.
Proof.
  induction a as [|x a IH]; cbn; [reflexivity|].
  now rewrite IH, orb_assoc.
Qed.

Lemma occurs_join (d : ascii) (sep : string) (l : list string) :
  occurs d (join sep l) = true ->
  occurs d sep = true \/ exists x, In x l /\ occurs d x = true.
Proof.
  induction l as [|x l IH]; cbn [join]; [discriminate|].
  destruct l as [|y l].
  - intros H. right. exists x. split; [now left | exact H].
  - rewrite !occurs_app. intros H.
    apply orb_true_iff in H as [H | H].
    + right. exists x. split; [now left | exact H].
    + apply orb_true_iff in H as [H | H]; [now left|].
      destruct (IH H) as [Hs | [z [Hz Hd]]]; [now left|].
      right. exists z. split; [now right | exact Hd].
Qed.

Lemma occurs_split (d c : ascii) (s x : string) :
  In x (split c s) -> occurs d x = true -> occurs d s = true.
Proof.
  revert x. induction s as [|a s IH]; intros x; cbn [split].
  - intros [<- | []]. discriminate.
  - destruct (Ascii.eqb a c) eqn:Hac.
    + intros [<- | Hx]; [discriminate|].
      intros Hd. cbn. rewrite (IH x Hx Hd). apply orb_true_r.
    + destruct (split c s) as [|piece pieces] eqn:Hs.
      * intros [<- | []]. cbn. rewrite orb_false_r. now intros ->.
      * intros [<- | Hx] Hd; cbn in *.
        -- apply orb_true_iff in Hd as [Hd | Hd];
             [now rewrite Hd|].
           rewrite (IH piece (or_introl eq_refl) Hd). apply orb_true_r.
        -- rewrite (IH x (or_intror Hx) Hd). apply orb_true_r.
Qed.

Lemma join_app (sep : string) (l1 l2 : list string) :
  l1 <> [] -> l2 <> [] ->
  join sep (l1 ++ l2) = (join sep l1 ++ sep ++ join sep l2)%string.
Proof.
  induction l1 as [|x l1 IH]; [contradiction|]. intros _ H2.
  destruct l1 as [|y l1].
  - destruct l2 as [|z l2]; [contradiction | reflexivity].
  - change (join sep ((x :: y :: l1) ++ l2))
      with (x ++ sep ++ join sep ((y :: l1) ++ l2))%string.
    rewrite IH by (trivial; discriminate).
    change (join sep (x :: y :: l1))
      with (x ++ sep ++ join sep (y :: l1))%string.
    now rewrite !append_assoc.
Qed.

End TextFacts.

(** ** The request string *)

Lemma split_reversePair (p : string) :
  Text.split Text.comma (Planner.reversePair p)
  = rev (Text.split Text.comma p).
Proof.
  unfold Planner.reversePair.
  apply (TextFacts.split_join Text.comma).
  - intros H. apply (f_equal (@rev string)) in H.
    rewrite rev_involutive in H. now apply TextFacts.split_not_nil in H.
  - intros x Hx. apply in_rev in Hx.
    now apply TextFacts.split_pieces_free in Hx.
Qed.

Lemma reversePair_twice (p : string) :
  Planner.reversePair (Planner.reversePair p) = p.
Proof.
  unfold Planner.reversePair at 1.
  rewrite split_reversePair, rev_involutive.
  apply (TextFacts.join_split Text.comma).
Qed.

(** X11.  Reversing a ["lat,lng"] pair twice gives the string back, whatever
    the string is; and the fields of a reversed pair are the fields of the
    pair in the opposite order. *)
Theorem reversePair_involutive :
  forall p : string,
    Planner.reversePair (Planner.reversePair p) = p /\
    Text.split Text.comma (Planner.reversePair p)
    = rev (Text.split Text.comma p).
Proof.
  intros p. split; [apply reversePair_twice | apply split_reversePair].
Qed.

Lemma reversePair_free (p : string) :
  Text.occurs Text.semicolon p = false ->
  Text.occurs Text.semicolon (Planner.reversePair p) = false.
Proof.
  intros Hp.
  destruct (Text.occurs Text.semicolon (Planner.reversePair p)) eqn:H;
    [|reflexivity].
  apply TextFacts.occurs_join in H as [H | [x [Hx H]]]; [discriminate|].
  apply in_rev in Hx.
  rewrite (TextFacts.occurs_split _ _ _ _ Hx H) in Hp. discriminate.
Qed.

Lemma reversePair_nonempty (p : string) :
  p <> EmptyString -> Planner.reversePair p <> EmptyString.
Proof.
  intros Hp H. apply Hp.
  rewrite <- (reversePair_twice p), H. reflexivity.
Qed.

Lemma append_sep_nonempty (a b : string) (c : ascii) :
  (a ++ String c b)%string <> EmptyString.
Proof. destruct a; discriminate. Qed.

Lemma wpParam_nonempty (w : string) (ws : list string) :
  (forall x, In x (w :: ws) -> x <> EmptyString) ->
  Text.join ";" (map Planner.reversePair (w :: ws)) <> EmptyString.
Proof.
  intros Hne. destruct ws as [|v ws].
  - cbn. apply reversePair_nonempty, Hne. now left.
  - change (Text.join ";" (map Planner.reversePair (w :: v :: ws)))
      with (Planner.reversePair w
            ++ String Text.semicolon
                 (Text.join ";" (map Planner.reversePair (v :: ws))))%string.
    apply append_sep_nonempty.
Qed.

Lemma join_cons (sep x : string) (l : list string) :
  l <> [] -> Text.join sep (x :: l) = (x ++ sep ++ Text.join sep l)%string.
Proof. destruct l; [contradiction | reflexivity]. Qed.

(** [coordStr] joins the reversed start, waypoints and end with [;]. *)
Lemma coordStr_join (start end_ : string) (wps : list string) :
  (forall w, In w wps -> w <> EmptyString) ->
  Planner.coordStr start end_ wps
  = Text.join ";"
      (Planner.reversePair start
         :: map Planner.reversePair wps ++ [Planner.reversePair end_]).
Proof.
  intros Hne. unfold Planner.coordStr.
  destruct wps as [|w ws]; [reflexivity|].
  pose proof (wpParam_nonempty w ws Hne) as Hwp.
  rewrite (join_cons ";" (Planner.reversePair start))
    by (cbn; discriminate).
  rewrite (TextFacts.join_app ";" (map Planner.reversePair (w :: ws)))
    by (cbn; discriminate).
  destruct (Text.join ";" (map Planner.reversePair (w :: ws)))
    as [|c wp]; [contradiction | reflexivity].
Qed.

(** X12.  The request survives the trip.  For points written without [;],
    the waypoints non-empty, splitting the [coords] string of [fetchRoute] at
    [;] gives back the reversed start, the reversed waypoints in order, and
    the reversed end; so [/route] reads one raw point per point chosen, each
    with the fields of the ["lat,lng"] string in the opposite order. *)
Theorem request_round_trip :
  forall (start end_ : string) (wps : list string),
    Text.occurs Text.semicolon start = false ->
    Text.occurs Text.semicolon end_ = false ->
    (forall w, In w wps ->
               w <> EmptyString /\ Text.occurs Text.semicolon w = false) ->
    Text.split Text.semicolon (Planner.coordStr start end_ wps)
    = Planner.reversePair start
        :: map Planner.reversePair wps ++ [Planner.reversePair end_] /\
    Planner.rawPointFields (Planner.coordStr start end_ wps)
    = rev (Text.split Text.comma start)
        :: map (fun w => rev (Text.split Text.comma w)) wps
        ++ [rev (Text.split Text.comma end_)].
Proof.
  intros start end_ wps Hs He Hw.
  assert (Hsplit :
            Text.split Text.semicolon (Planner.coordStr start end_ wps)
            = Planner.reversePair start
                :: map Planner.reversePair wps
                ++ [Planner.reversePair end_]).
  { rewrite coordStr_join by (intros w Hin; now apply Hw).
    apply (TextFacts.split_join Text.semicolon); [discriminate|].
    intros x [<- | Hx]; [now apply reversePair_free|].
    apply in_app_or in Hx as [Hx | [<- | []]].
    - apply in_map_iff in Hx as [w [<- Hin]].
      apply reversePair_free. now apply Hw.
    - now apply reversePair_free. }
  split; [exact Hsplit|].
  unfold Planner.rawPointFields. rewrite Hsplit.
  cbn [map]. rewrite map_app, map_map. cbn [map].
  rewrite !split_reversePair. f_equal. f_equal.
  apply map_ext. intros w. apply split_reversePair.
Qed.

Lemma request_round_trip_witness :
  Planner.rawPointFields
    (Planner.coordStr MoreExamples.startPoint MoreExamples.endPoint
       [MoreExamples.viaPoint])
  = [ ["77.209000"; "28.613900"]; ["79.000000"; "27.500000"];
      ["80.946200"; "26.846700"] ]%string.
Proof.
  apply (fun H =>
           proj2 (request_round_trip MoreExamples.startPoint
                    MoreExamples.endPoint [MoreExamples.viaPoint]
                    eq_refl eq_refl H)).
  intros w [<- | []]. split; [discriminate | reflexivity].
Defined.

(** ** The zone polygons *)

(** X13.  The polygon drawn for a zone with a positive number of segments is
    a closed ring: it has one point more than segments, it starts at the
    point pushed for index 0 and ends at that same point, and that point has
    the latitude of the zone's centre. *)
Theorem polygon_is_closed_ring :
  forall (segments : nat) (zone : Website.Zone),
    (0 < segments)%nat ->
    List.length (Overlay.ring segments zone) = S segments /\
    hd_error (Overlay.ring segments zone)
    = Some (Overlay.ringPoint segments zone 0) /\
    last (Overlay.ring segments zone) (0, 0)
    = Overlay.ringPoint segments zone 0 /\
    fst (Overlay.ringPoint segments zone 0) = Website.lat zone.
Proof.
  intros segments zone Hpos.
  destruct segments as [|n]; [inversion Hpos|].
  unfold Overlay.ring.
  remember (Overlay.ringPoint (S n) zone) as f eqn:Hf.
  cbn [seq map].
  split; [|split; [|split]].
  - cbn [List.length app]. rewrite length_app, length_map, length_seq.
    cbn. f_equal. apply Nat.add_1_r.
  - reflexivity.
  - change (f 0%nat :: map f (seq 1 n) ++ [f 0%nat])
      with ((f 0%nat :: map f (seq 1 n)) ++ [f 0%nat]).
    apply last_last.
  - subst f. unfold Overlay.ringPoint, Math.sin. cbn [fst].
    replace (INR 0 / INR (S n) * 2 * Math.PI) with 0
      by (change (INR 0) with 0; unfold Rdiv; ring).
    rewrite sin_0. unfold Rdiv. ring.
Qed.

Lemma polygon_is_closed_ring_witness :
  List.length (Overlay.ring 32 Examples.degreeZone) = 33%nat /\
  last (Overlay.ring 32 Examples.degreeZone) (0, 0)
  = Overlay.ringPoint 32 Examples.degreeZone 0.
Proof.
  destruct (polygon_is_closed_ring 32 Examples.degreeZone)
    as (Hlen & _ & Hlast & _).
  - repeat constructor.
  - split; [exact Hlen | exact Hlast].
Defined.

(** ** The vehicle monitor *)

Section MonitorLog.

Import Overlay.

Variable redZones : list Website.Zone.

(** The timer handle is held exactly when the log ends with an ENTER line,
    and every EXIT line directly follows an ENTER line. *)
Let invariant (m : Monitor) : Prop :=
  (redZoneTimer m = true <-> exists pre, logs m = pre ++ [EnterRedZone]) /\
  (forall pre post,
     logs m = pre ++ ExitRedZone :: post ->
     exists pre', pre = pre' ++ [EnterRedZone]).

Lemma exit_in_snoc (l pre post : list LogEntry) (x : LogEntry) :
  l ++ [x] = pre ++ ExitRedZone :: post ->
  (post = [] /\ l = pre /\ x = ExitRedZone) \/
  (exists post', post = post' ++ [x] /\ l = pre ++ ExitRedZone :: post').
Proof.
  intros H. destruct post as [|p post0].
  - left. apply app_inj_tail in H as [-> ->]. auto.
  - destruct (@exists_last _ (p :: post0)) as [post' [y Hy]];
      [discriminate|].
    rewrite Hy in *. clear Hy p post0.
    right. exists post'.
    change (pre ++ ExitRedZone :: post' ++ [y])
      with (pre ++ (ExitRedZone :: post') ++ [y]) in H.
    rewrite app_assoc in H. apply app_inj_tail in H as [-> ->]. auto.
Qed.

Lemma invariant_initial : invariant initial.
Proof.
  split.
  - split; [discriminate|]. intros [pre H]. now destruct pre.
  - intros pre post H. now destruct pre.
Qed.

Lemma invariant_enter (m : Monitor) :
  invariant m ->
  invariant (mkMonitor true true (logs m ++ [EnterRedZone])).
Proof.
  intros [_ Hwf]. split; cbn.
  - split; [|reflexivity]. intros _. now exists (logs m).
  - intros pre post H.
    apply exit_in_snoc in H as [(_ & _ & [=]) | [post' [_ H]]].
    now apply (Hwf pre post').
Qed.

Lemma invariant_exit (m : Monitor) :
  invariant m -> redZoneTimer m = true ->
  invariant (mkMonitor (logCooldown m) false (logs m ++ [ExitRedZone])).
Proof.
  intros [Htimer Hwf] Hheld. split; cbn.
  - split; [discriminate|]. intros [pre H].
    apply app_inj_tail in H as [_ [=]].
  - intros pre post H.
    apply exit_in_snoc in H as [(_ & <- & _) | [post' [_ H]]].
    + now apply Htimer.
    + now apply (Hwf pre post').
Qed.

Lemma invariant_step (m : Monitor) (e : Event) :
  invariant m -> invariant (step redZones m e).
Proof.
  intros Hm. destruct e as [[pos|] | |]; cbn [step onVehiclePos];
    trivial.
  - destruct (inside redZones pos); cbn [andb negb].
    + destruct (logCooldown m); cbn [negb]; trivial.
      now apply invariant_enter.
    + destruct (redZoneTimer m) eqn:Hheld; trivial.
      now apply invariant_exit.
Qed.

Lemma invariant_run (events : list Event) (m : Monitor) :
  invariant m -> invariant (fold_left (step redZones) events m).
Proof.
  revert m. induction events as [|e events IH]; intros m Hm; cbn; trivial.
  apply IH. now apply invariant_step.
Qed.

(** X15.  Whatever positions the vehicle reports and whenever the timeouts
    fire, the monitor's log is well formed: every EXIT line directly follows
    an ENTER line (so the log never starts with EXIT and never shows two
    EXIT lines in a row), and the ten-second timer handle is held exactly
    when the last line of the log is an ENTER line. *)
Theorem monitor_log_well_formed :
  forall events : list Event,
    let m := run redZones events in
    (redZoneTimer m = true <-> exists pre, logs m = pre ++ [EnterRedZone]) /\
    (forall pre post,
       logs m = pre ++ ExitRedZone :: post ->
       exists pre', pre = pre' ++ [EnterRedZone]).
Proof.
  intros events. apply (invariant_run events initial invariant_initial).
Qed.

End MonitorLog.

Lemma degreeZone_radius_bounds :
  0 < Website.radius Examples.degreeZone < 222000.
Proof.
  cbn. pose proof PI_RGT_0. pose proof PI_4. lra.
Qed.

Lemma inside_centre :
  Overlay.inside [Examples.degreeZone] (0, 0) = true.
Proof.
  unfold Overlay.inside, JS.some, Overlay.dist, Overlay.pow, Math.sqrt.
  cbn [existsb fst snd Examples.degreeZone Website.lat Website.lon].
  replace ((0 - 0) ^ 2 + ((0 - 0) * Math.cos (0 * Math.PI / 180)) ^ 2)
    with 0 by ring.
  destruct (Rle_dec 0 0) as [_|Hn]; [|lra].
  cbn [JS.bind]. rewrite sqrt_0, orb_false_r.
  apply lt_true_of_lt. pose proof degreeZone_radius_bounds. lra.
Qed.

Lemma inside_two_degrees_north :
  Overlay.inside [Examples.degreeZone] (2, 0) = false.
Proof.
  unfold Overlay.inside, JS.some, Overlay.dist, Overlay.pow, Math.sqrt.
  cbn [existsb fst snd Examples.degreeZone Website.lat Website.lon].
  replace ((2 - 0) ^ 2 + ((0 - 0) * Math.cos (0 * Math.PI / 180)) ^ 2)
    with (2 * 2) by ring.
  destruct (Rle_dec 0 (2 * 2)) as [_|Hn]; [|lra].
  cbn [JS.bind]. rewrite sqrt_square by lra. rewrite orb_false_r.
  apply lt_false_of_le. pose proof degreeZone_radius_bounds. lra.
Qed.

Lemma driveThrough_log :
  Overlay.logs (Overlay.run [Examples.degreeZone] MoreExamples.driveThrough)
  = [Overlay.EnterRedZone] ++ Overlay.ExitRedZone :: [].
Proof.
  unfold Overlay.run, MoreExamples.driveThrough.
  cbn [fold_left Overlay.step Overlay.onVehiclePos].
  rewrite inside_centre. cbn [andb negb Overlay.initial Overlay.logCooldown
                                Overlay.redZoneTimer Overlay.logs app].
  rewrite inside_two_degrees_north. reflexivity.
Qed.

(** Entering and leaving [degreeZone] logs ENTER, then EXIT. *)
Lemma monitor_log_well_formed_witness :
  exists pre', [Overlay.EnterRedZone] = pre' ++ [Overlay.EnterRedZone].
Proof.
  apply (proj2 (monitor_log_well_formed [Examples.degreeZone]
                  MoreExamples.driveThrough)
           [Overlay.EnterRedZone] []).
  exact driveThrough_log.
Defined.
